(** * namesign: two-colour name sign generator

    Shallow embedding of [namesign.py] (layout, outlines, border frame,
    solid composition) and of the offset-curve preview code of
    [namesign_gui.py], with the properties the specification states about
    them.

    Conventions of the embedding.
    - A Python [float] is a real number ([R]); arithmetic is exact.  The
      statements proved here are therefore the exact versions of properties
      the specification asks for "within numerical tolerance".
    - A Python [str] is a [string]; each character stands for one code
      point, and [len] is [String.length].
    - A Python exception that the code does not catch is the [Raise] case
      of [result].
    - CadQuery and Qt objects are first-order terms ([Wire], [Solid],
      [QPainterPath]) recording the calls that built them.  What the
      geometry kernel does with them (whether [text] or [offset2D] raise,
      which font file is found, which points a face covers) is the
      [CadQuery] interface.  The calls the code does not guard ([rect],
      [extrude], [union], [cut], [mirror]) are taken not to raise. *)

From Stdlib Require Import Reals Lra Psatz Lia.
From Stdlib Require Import List String Ascii Bool Arith.
From Stdlib Require Import Classical_Prop.
Import ListNotations.

Open Scope R_scope.

(* ================================================================== *)
(** * Python values *)
(* ================================================================== *)

(** ** Exceptions *)

Inductive exn : Type :=
| ZeroDivisionError
| ValueError.

Inductive result (A : Type) : Type :=
| Ok (a : A)
| Raise (e : exn).

Arguments Ok {A} a.
Arguments Raise {A} e.

Definition bind {A B : Type} (m : result A) (k : A -> result B) : result B :=
  match m with
  | Ok a => k a
  | Raise e => Raise e
  end.

Notation "x <- m ;; k" := (bind m (fun x => k))
  (at level 61, m at next level, right associativity).

(** ** Comparisons and arithmetic on floats *)

Definition leb (a b : R) : bool := if Rle_dec a b then true else false.
Definition ltb (a b : R) : bool := if Rlt_dec a b then true else false.
Definition geb (a b : R) : bool := leb b a.
Definition gtb (a b : R) : bool := ltb b a.

(** [a / b] on floats raises [ZeroDivisionError] when [b] is zero. *)
Definition pydiv (a b : R) : result R :=
  if Req_dec_T b 0 then Raise ZeroDivisionError else Ok (a / b).

(** [sum(xs)]: left to right, starting from 0. *)
Definition sum (xs : list R) : R := fold_left Rplus xs 0.

(** [math.sqrt] raises [ValueError] on a negative argument. *)
Definition math_sqrt (x : R) : result R :=
  if ltb x 0 then Raise ValueError else Ok (sqrt x).

(** ** Strings *)

(** [str.isspace] on one character: the white space of the code points
    below 256. *)
Definition isspace (c : ascii) : bool :=
  let n := nat_of_ascii c in
  ((9 <=? n) && (n <=? 13) || (28 <=? n) && (n <=? 32)
   || (n =? 133) || (n =? 160))%nat.

Fixpoint lstrip (s : string) : string :=
  match s with
  | EmptyString => EmptyString
  | String c s' => if isspace c then lstrip s' else s
  end.

Fixpoint rstrip (s : string) : string :=
  match s with
  | EmptyString => EmptyString
  | String c s' =>
      match rstrip s' with
      | EmptyString => if isspace c then EmptyString else String c EmptyString
      | t => String c t
      end
  end.

(** [s.strip()] *)
Definition strip (s : string) : string := rstrip (lstrip s).

(** Truth value of a string: non-empty. *)
Definition truthy (s : string) : bool :=
  match s with
  | EmptyString => false
  | String _ _ => true
  end.

(** ["".join(parts)] *)
Definition join (parts : list string) : string :=
  fold_right String.append EmptyString parts.

(** [len(s)] as a float operand. *)
Definition len (s : string) : R := INR (String.length s).

(* ================================================================== *)
(** * namesign.py: parameters *)
(* ================================================================== *)

Definition CHAR_WIDTH_RATIO : R := 0.55.

Module StyledRun.

(** A run of text with uniform styling. *)
Record t : Type := mk {
  text : string;
  bold : bool;
  italic : bool;
  underline : bool
}.

End StyledRun.

(** Parameters for name sign generation. *)
Record SignParams : Type := mkSignParams {
  lines : list string;
  styled_lines : option (list (list StyledRun.t));
  sizes : option (list R);
  width : R;
  height : R;
  thickness : R;
  text_depth : R;
  font : string;
  bold : bool;
  italic : bool;
  underline : bool;
  border_style : string;
  corner_radius : R;
  border_offset : R;
  border_width : R;
  line_spacing : R;
  output : string
}.

(** [SignParams()] with the defaults of the dataclass. *)
Definition default_params : SignParams := {|
  lines := ["Her bor"; "Ola Nordmann"]%string;
  styled_lines := None;
  sizes := None;
  width := 180;
  height := 120;
  thickness := 3;
  text_depth := 0.6;
  font := "Arial";
  bold := false;
  italic := false;
  underline := false;
  border_style := "concave";
  corner_radius := 12;
  border_offset := 6;
  border_width := 2;
  line_spacing := 1.3;
  output := "namesign"
|}.

Definition set_sizes (p : SignParams) (s : option (list R)) : SignParams :=
  mkSignParams (lines p) (styled_lines p) s (width p) (height p)
    (thickness p) (text_depth p) (font p) (bold p) (italic p) (underline p)
    (border_style p) (corner_radius p) (border_offset p) (border_width p)
    (line_spacing p) (output p).

Definition set_line_spacing (p : SignParams) (ls : R) : SignParams :=
  mkSignParams (lines p) (styled_lines p) (sizes p) (width p) (height p)
    (thickness p) (text_depth p) (font p) (bold p) (italic p) (underline p)
    (border_style p) (corner_radius p) (border_offset p) (border_width p)
    ls (output p).

(** Clamp corner radius to fit within dimensions. *)
Definition _clamp_radius (r w h : R) : R :=
  Rmax 0 (Rmin (Rmin r (w / 2 - 0.1)) (h / 2 - 0.1)).

(* ================================================================== *)
(** * namesign.py: text layout *)
(* ================================================================== *)

(** Get plain text for each line, from styled_lines if available. *)
Definition _get_line_texts (params : SignParams) : list string :=
  match styled_lines params with
  | Some sl => map (fun runs => join (map StyledRun.text runs)) sl
  | None => lines params
  end.

(** The loop of [auto_font_sizes] that caps the size by every line's
    estimated width. *)
Fixpoint cap_by_lines (lines : list string) (available_w uniform : R)
  : result R :=
  match lines with
  | [] => Ok uniform
  | line :: rest =>
      let text := strip line in
      if negb (truthy text) then cap_by_lines rest available_w uniform
      else
        max_w <- pydiv available_w (len text * CHAR_WIDTH_RATIO) ;;
        cap_by_lines rest available_w (Rmin uniform max_w)
  end.

(** The padding between the plate's edge and the text area. *)
Definition padding_of (params : SignParams) : R :=
  if negb (border_style params =? "none")%string && gtb (border_width params) 0
  then border_offset params + border_width params + 3
  else Rmax (corner_radius params * 0.5) 4.

(** Calculate automatic font sizes - uniform across all lines. *)
Definition auto_font_sizes (params : SignParams) : result (list R) :=
  let lines := _get_line_texts params in
  let n := List.length lines in
  if (n =? 0)%nat then Ok []
  else
    let non_empty := filter (fun l => truthy (strip l)) lines in
    match non_empty with
    | [] => Ok (repeat 10 n)
    | _ :: _ =>
        let padding := padding_of params in
        let available_w := width params - 2 * padding in
        let available_h := height params - 2 * padding in
        if leb available_w 0 || leb available_h 0 then Ok (repeat 5 n)
        else
          let n_text := List.length non_empty in
          base_size <-
            pydiv available_h (1 + (INR n_text - 1) * line_spacing params) ;;
          uniform <- cap_by_lines lines available_w base_size ;;
          Ok (repeat uniform n)
    end.

(** The gaps between consecutive line centers:
    [(size_i/2 + size_{i+1}/2) * line_spacing]. *)
Fixpoint line_gaps (line_data : list (string * R)) (line_spacing : R)
  : list R :=
  match line_data with
  | a :: (b :: _) as rest =>
      (snd a / 2 + snd b / 2) * line_spacing :: line_gaps rest line_spacing
  | _ => []
  end.

(** The loop [y_positions.append(y_positions[-1] - gap)], from the last
    position [y]. *)
Fixpoint stack_below (y : R) (gaps : list R) : list R :=
  match gaps with
  | [] => []
  | gap :: gaps' => (y - gap) :: stack_below (y - gap) gaps'
  end.

(** Calculate centered Y positions for text lines (top line first). *)
Definition _calc_line_positions (line_data : list (string * R))
  (line_spacing : R) : list R :=
  match line_data with
  | [] => []
  | [_] => [0]
  | _ =>
      let gaps := line_gaps line_data line_spacing in
      let total_span := sum gaps in
      (total_span / 2) :: stack_below (total_span / 2) gaps
  end.

(* ================================================================== *)
(** * CadQuery objects *)
(* ================================================================== *)

Definition point2 : Type := (R * R)%type.
Definition point3 : Type := (R * R * R)%type.

(** The drawing calls after [moveTo] on a workplane. *)
Inductive PathCmd : Type :=
| lineTo (p : point2)
| threePointArc (mid fin : point2).

(** A closed 2D wire on the XY workplane. *)
Inductive Wire : Type :=
| Rect (c : point2) (w h : R)
    (** [Workplane("XY").center(cx, cy).rect(w, h)] *)
| ClosedPath (start : point2) (cmds : list PathCmd)
    (** [Workplane("XY").moveTo(start) ... .close()] *)
| Offset2D (wire : Wire) (d : R)
    (** [wire.offset2D(d, kind="arc")] *).

(** The font arguments [_text_kwargs_for_style] puts in the keyword
    dictionary; [halign] and [valign] are always ["center"]. *)
Inductive FontSpec : Type :=
| FontPath (fontPath : string)
| FontKind (font kind : string).

Inductive Solid : Type :=
| Extrude (wire : Wire) (depth : R)
| Text (c : point2) (txt : string) (fontsize distance : R) (f : FontSpec)
    (** [Workplane("XY").center(cx, cy).text(txt, fontsize, distance, ...)] *)
| Union (a b : Solid)
| Cut (a b : Solid)
| Mirror_YZ (a : Solid).

(** What the code asks of CadQuery, of the geometry kernel under it and of
    the host's font directory. *)
Class CadQuery : Type := {
  (** [_find_font_path]: the font file found on the host, if any. *)
  _find_font_path : string -> bool -> bool -> option string;
  (** Whether [.text(...)] raises for these arguments. *)
  text_raises : point2 -> string -> R -> R -> FontSpec -> bool;
  (** Whether [wire.offset2D(d, kind="arc")] (or the extrusion and cut of
      its result) raises. *)
  offset2D_raises : Wire -> R -> bool;
  (** The points of the plane that the face bounded by a drawn or offset
      wire covers. *)
  kernel_face : Wire -> point2 -> Prop;
  (** The points of space that an extruded text covers. *)
  text_volume : point2 -> string -> R -> R -> FontSpec -> point3 -> Prop
}.

(** ** 2D wire builders *)

(** Create a 2D closed wire for a concave plaque outline. *)
Definition _create_concave_wire (w h r : R) : Wire :=
  let r := _clamp_radius r w h in
  if ltb r 0.1 then Rect (0, 0) w h
  else
    let hw := w / 2 in
    let hh := h / 2 in
    let k := r * cos (PI / 4) in
    ClosedPath (- hw + r, - hh)
      [ lineTo (hw - r, - hh);
        threePointArc (hw - k, - hh + k) (hw, - hh + r);
        lineTo (hw, hh - r);
        threePointArc (hw - k, hh - k) (hw - r, hh);
        lineTo (- hw + r, hh);
        threePointArc (- hw + k, hh - k) (- hw, hh - r);
        lineTo (- hw, - hh + r);
        threePointArc (- hw + k, - hh + k) (- hw + r, - hh) ].

(** Create a 2D closed wire for a rounded rectangle. *)
Definition _create_rounded_wire (w h r : R) : Wire :=
  let r := _clamp_radius r w h in
  if ltb r 0.1 then Rect (0, 0) w h
  else
    let hw := w / 2 in
    let hh := h / 2 in
    let a := r * (1 - cos (PI / 4)) in
    ClosedPath (- hw + r, - hh)
      [ lineTo (hw - r, - hh);
        threePointArc (hw - a, - hh + a) (hw, - hh + r);
        lineTo (hw, hh - r);
        threePointArc (hw - a, hh - a) (hw - r, hh);
        lineTo (- hw + r, hh);
        threePointArc (- hw + a, hh - a) (- hw, hh - r);
        lineTo (- hw, - hh + r);
        threePointArc (- hw + a, - hh + a) (- hw + r, - hh) ].

(** Create a 2D closed wire based on border style. *)
Definition _create_outline_wire (w h r : R) (style : string) : Wire :=
  if (style =? "concave")%string then _create_concave_wire w h r
  else if (style =? "rounded")%string then _create_rounded_wire w h r
  else Rect (0, 0) w h.

(** ** 3D solid builders *)

(** Create a plate outline solid based on border style. *)
Definition _create_outline_solid (w h r : R) (style : string) (depth : R)
  : Solid :=
  Extrude (_create_outline_wire w h r style) depth.

(** The [except] branch of [_create_border_frame]: the simple
    dimension-based approach. *)
Definition fallback_border (params : SignParams) : option Solid :=
  let off := border_offset params in
  let bw := border_width params in
  let outer_w := width params - 2 * off in
  let outer_h := height params - 2 * off in
  let outer_r := Rmax 0 (corner_radius params - off) in
  let inner_w := outer_w - 2 * bw in
  let inner_h := outer_h - 2 * bw in
  let inner_r := Rmax 0 (outer_r - bw) in
  if leb outer_w 0 || leb outer_h 0 then None
  else
    let outer_s :=
      _create_outline_solid outer_w outer_h outer_r (border_style params)
        (text_depth params) in
    if leb inner_w 0 || leb inner_h 0 then Some outer_s
    else
      let inner_s :=
        _create_outline_solid inner_w inner_h inner_r (border_style params)
          (text_depth params) in
      Some (Cut outer_s inner_s).

Section Generation.

Context {cadquery : CadQuery}.

(** The [try] branch of [_create_border_frame]: [None] when [offset2D]
    raised. *)
Definition offset_border (params : SignParams) : option Solid :=
  let off := border_offset params in
  let bw := border_width params in
  let wire1 :=
    _create_outline_wire (width params) (height params)
      (corner_radius params) (border_style params) in
  if offset2D_raises wire1 (- off) then None
  else
    let outer_solid := Extrude (Offset2D wire1 (- off)) (text_depth params) in
    let wire2 :=
      _create_outline_wire (width params) (height params)
        (corner_radius params) (border_style params) in
    if offset2D_raises wire2 (- (off + bw)) then None
    else
      let inner_solid :=
        Extrude (Offset2D wire2 (- (off + bw))) (text_depth params) in
      Some (Cut outer_solid inner_solid).

(** Create the border frame solid using offset2D for constant distance.
    Returns None if border_style is 'none' or border_width <= 0. *)
Definition _create_border_frame (params : SignParams) : option Solid :=
  if (border_style params =? "none")%string || leb (border_width params) 0
  then None
  else
    let off := border_offset params in
    let bw := border_width params in
    if leb off 0 && leb bw 0 then None
    else
      match offset_border params with
      | Some frame => Some frame
      | None => fallback_border params
      end.

(** ** Text solids *)

(** Build CadQuery text() kwargs for a given bold/italic combination. *)
Definition _text_kwargs_for_style (font : string) (bold italic : bool)
  : FontSpec :=
  if bold && italic then
    match _find_font_path font true true with
    | Some fp => if truthy fp then FontPath fp else FontKind font "bold"
    | None => FontKind font "bold"
    end
  else if bold then FontKind font "bold"
  else if italic then FontKind font "italic"
  else FontKind font "regular".

(** [non_empty_indices = [i for i, l in enumerate(line_texts) if l.strip()]] *)
Definition non_empty_indices (line_texts : list string) : list nat :=
  map fst
    (filter (fun il => truthy (strip (snd il)))
       (combine (seq 0 (List.length line_texts)) line_texts)).

(** [params.sizes if params.sizes and len(params.sizes) == len(line_texts)
     else auto_font_sizes(params)] *)
Definition chosen_sizes (params : SignParams) (line_texts : list string)
  : result (list R) :=
  match sizes params with
  | Some ((_ :: _) as explicit) =>
      if (List.length explicit =? List.length line_texts)%nat
      then Ok explicit
      else auto_font_sizes params
  | _ => auto_font_sizes params
  end.

(** [(text, size)] pairs for non-empty lines. *)
Definition line_data_of (line_texts : list string) (sizes : list R)
  (indices : list nat) : list (string * R) :=
  map (fun i =>
         (strip (nth i line_texts EmptyString),
          if (i <? List.length sizes)%nat then nth i sizes 0
          else last sizes 0))
      indices.

(** Fraction of font_size below center at which the underline sits. *)
Definition UL_Y_OFFSET : R := 0.35.

(** One text group of a styled line:
    [[merged_text, bold, italic, [(run_text, underline), ...]]]. *)
Record Group : Type := mkGroup {
  g_text : string;
  g_bold : bool;
  g_italic : bool;
  g_runs : list (string * bool)
}.

Definition new_group (run : StyledRun.t) : Group :=
  mkGroup (StyledRun.text run) (StyledRun.bold run) (StyledRun.italic run)
    [(StyledRun.text run, StyledRun.underline run)].

Definition extend_group (g : Group) (run : StyledRun.t) : Group :=
  mkGroup (g_text g ++ StyledRun.text run) (g_bold g) (g_italic g)
    (g_runs g ++ [(StyledRun.text run, StyledRun.underline run)]).

(** One step of the merging loop on a run with text: extend [groups[-1]]
    when it has the run's (bold, italic), append a new group otherwise. *)
Fixpoint add_run (groups : list Group) (run : StyledRun.t) : list Group :=
  match groups with
  | [] => [new_group run]
  | [g] =>
      if Bool.eqb (g_bold g) (StyledRun.bold run)
         && Bool.eqb (g_italic g) (StyledRun.italic run)
      then [extend_group g run]
      else [g; new_group run]
  | g :: rest => g :: add_run rest run
  end.

(** Merge consecutive runs with same (bold, italic) into text groups. *)
Definition merge_runs (runs : list StyledRun.t) : list Group :=
  fold_left
    (fun groups run =>
       if negb (truthy (StyledRun.text run)) then groups
       else add_run groups run)
    runs [].

(** The guarded [.text(...)] call: nothing is appended when it raises. *)
Definition try_text (params : SignParams) (c : point2) (txt : string)
  (font_size : R) (kwargs : FontSpec) : list Solid :=
  if text_raises c txt font_size (text_depth params) kwargs then []
  else [Text c txt font_size (text_depth params) kwargs].

(** The underline rectangle of width [w] centered at [cx] under the line
    at height [y]. *)
Definition underline_rect (params : SignParams) (cx y font_size w : R)
  : Solid :=
  let ul_thickness := Rmax 0.4 (font_size * 0.06) in
  let ul_y := y - font_size * UL_Y_OFFSET in
  Extrude (Rect (cx, ul_y) w ul_thickness) (text_depth params).

(** Underline rectangles per sub-run, from [char_x] rightwards. *)
Fixpoint run_underlines (params : SignParams) (font_size y char_x : R)
  (runs : list (string * bool)) : list Solid :=
  match runs with
  | [] => []
  | (sub_text, sub_ul) :: rest =>
      let sub_w := len sub_text * CHAR_WIDTH_RATIO * font_size in
      (if sub_ul : bool
       then [underline_rect params (char_x + sub_w / 2) y font_size sub_w]
       else [])
      ++ run_underlines params font_size y (char_x + sub_w) rest
  end.

(** Multiple font-style groups, placed from [x] rightwards. *)
Fixpoint place_groups (params : SignParams) (font_size y x : R)
  (groups : list Group) : list Solid :=
  match groups with
  | [] => []
  | g :: rest =>
      let g_w := len (g_text g) * CHAR_WIDTH_RATIO * font_size in
      let g_cx := x + g_w / 2 in
      let kwargs :=
        _text_kwargs_for_style (font params) (g_bold g) (g_italic g) in
      try_text params (g_cx, y) (g_text g) font_size kwargs
      ++ run_underlines params font_size y x (g_runs g)
      ++ place_groups params font_size y (x + g_w) rest
  end.

(** The solids of one line of [styled_lines]. *)
Definition styled_line_solids (params : SignParams)
  (runs : list StyledRun.t) (font_size y : R) : list Solid :=
  match merge_runs runs with
  | [] => []
  | [g] =>
      let kwargs :=
        _text_kwargs_for_style (font params) (g_bold g) (g_italic g) in
      let full_w := len (g_text g) * CHAR_WIDTH_RATIO * font_size in
      try_text params (0, y) (g_text g) font_size kwargs
      ++ run_underlines params font_size y (- full_w / 2) (g_runs g)
  | groups =>
      let full_text := join (map g_text groups) in
      let total_w := len full_text * CHAR_WIDTH_RATIO * font_size in
      place_groups params font_size y (- total_w / 2) groups
  end.

(** The solids of one line under global styling (CLI mode). *)
Definition global_line_solids (params : SignParams) (text : string)
  (font_size y : R) : list Solid :=
  let text_kwargs :=
    _text_kwargs_for_style (font params) (bold params) (italic params) in
  try_text params (0, y) text font_size text_kwargs
  ++ (if underline params then
        let text_w := font_size * len text * CHAR_WIDTH_RATIO in
        [underline_rect params 0 y font_size text_w]
      else []).

(** The list [solids] at the end of the loops of [_create_text_solids]. *)
Definition text_solid_list (params : SignParams) (indices : list nat)
  (line_data : list (string * R)) (y_positions : list R) : list Solid :=
  match styled_lines params with
  | Some styled =>
      flat_map
        (fun row : nat * ((string * R) * R) =>
           let '(line_idx, ((_, font_size), y)) := row in
           styled_line_solids params (nth line_idx styled []) font_size y)
        (combine indices (combine line_data y_positions))
  | None =>
      flat_map
        (fun row : (string * R) * R =>
           let '((text, font_size), y) := row in
           global_line_solids params text font_size y)
        (combine line_data y_positions)
  end.

(** [combined = solids[0]; for s in solids[1:]: combined = combined.union(s)],
    [None] for an empty list. *)
Definition union_all (solids : list Solid) : option Solid :=
  match solids with
  | [] => None
  | s :: rest => Some (fold_left Union rest s)
  end.

(** Create extruded text solids for all lines.  Returns the combined text
    solids, or None if no text. *)
Definition _create_text_solids (params : SignParams)
  : result (option Solid) :=
  let line_texts := _get_line_texts params in
  let indices := non_empty_indices line_texts in
  match indices with
  | [] => Ok None
  | _ :: _ =>
      sizes <- chosen_sizes params line_texts ;;
      let line_data := line_data_of line_texts sizes indices in
      let y_positions := _calc_line_positions line_data (line_spacing params) in
      Ok (union_all (text_solid_list params indices line_data y_positions))
  end.

(** ** The two pieces *)

(** Generate the two-piece name sign: [(black_piece, white_piece)]. *)
Definition generate_sign (params : SignParams)
  : result (option Solid * Solid) :=
  let plate :=
    _create_outline_solid (width params) (height params)
      (corner_radius params) (border_style params) (thickness params) in
  text_solids <- _create_text_solids params ;;
  let border := _create_border_frame params in
  let black_parts :=
    (match text_solids with Some t => [t] | None => [] end)
    ++ (match border with Some b => [b] | None => [] end) in
  match union_all black_parts with
  | None => Ok (None, plate)
  | Some black_combined =>
      let black_piece := Mirror_YZ black_combined in
      let white_piece := Cut plate black_piece in
      Ok (Some black_piece, white_piece)
  end.

(** ** The points a solid covers *)

(** The face bounded by a wire: a rectangle is the axis-aligned box
    around its center, the rest is the kernel's. *)
Definition face (wire : Wire) (q : point2) : Prop :=
  match wire with
  | Rect (cx, cy) w h =>
      Rabs (fst q - cx) <= w / 2 /\ Rabs (snd q - cy) <= h / 2
  | _ => kernel_face wire q
  end.

(** [solid] covers the point [q]: extrusion runs from the workplane
    (z = 0) to [depth], [mirror("YZ")] flips x. *)
Fixpoint covers (solid : Solid) (q : point3) : Prop :=
  let '(x, y, z) := q in
  match solid with
  | Extrude wire depth =>
      face wire (x, y) /\ Rmin 0 depth <= z <= Rmax 0 depth
  | Text c txt fontsize distance f => text_volume c txt fontsize distance f q
  | Union a b => covers a q \/ covers b q
  | Cut a b => covers a q /\ ~ covers b q
  | Mirror_YZ a => covers a (- x, y, z)
  end.

End Generation.

(* ================================================================== *)
(** * namesign_gui.py: outline sampling for the offset preview *)
(* ================================================================== *)

(** The elements a [QPainterPath] is built from; [AddRect x y w h] is
    [path.addRect(QRectF(x, y, w, h))]. *)
Inductive PathElement : Type :=
| MoveTo (p : point2)
| LineTo (p : point2)
| AddRect (x y w h : R)
| CloseSubpath.

Definition QPainterPath : Type := list PathElement.

(** [math.atan2(y, x)] *)
Definition atan2 (y x : R) : R :=
  if gtb x 0 then atan (y / x)
  else if ltb x 0 then
    if geb y 0 then atan (y / x) + PI else atan (y / x) - PI
  else if gtb y 0 then PI / 2
  else if ltb y 0 then - (PI / 2)
  else 0.

(** The points [_add_offset_arc] draws lines to: [n_seg] samples of the
    clockwise sweep from (x1,y1) to (x2,y2) on circle (cx,cy,R). *)
Definition arc_samples (cx cy R_ x1 y1 x2 y2 : R) (n_seg : nat)
  : QPainterPath :=
  let a1 := atan2 (y1 - cy) (x1 - cx) in
  let a2 := atan2 (y2 - cy) (x2 - cx) in
  let delta := a2 - a1 in
  let delta := if gtb delta 0 then delta - 2 * PI else delta in
  map (fun i : nat =>
         let t := INR i / INR n_seg in
         let a := a1 + delta * t in
         LineTo (cx + R_ * cos a, cy + R_ * sin a))
      (seq 1 n_seg).

(** Add arc segment from (x1,y1) to (x2,y2) on circle (cx,cy,R),
    clockwise. *)
Definition _add_offset_arc (path : QPainterPath)
  (cx cy R_ x1 y1 x2 y2 : R) (n_seg : nat) : QPainterPath :=
  path ++ arc_samples cx cy R_ x1 y1 x2 y2 n_seg.

(** [path.addRect(QRectF(-(hw - d), -(hh - d), 2 * (hw - d), 2 * (hh - d)))] *)
Definition inset_rect (hw hh d : R) : PathElement :=
  AddRect (- (hw - d)) (- (hh - d)) (2 * (hw - d)) (2 * (hh - d)).

(** Build a QPainterPath for the concave outline offset inward by d. *)
Definition _build_offset_concave_path (hw hh r d : R) (n_arc : nat)
  : result QPainterPath :=
  let R_ := r + d in
  let path : QPainterPath := [] in
  if leb hw d || leb hh d || leb R_ 0 then
    if gtb hw d && gtb hh d then Ok (path ++ [inset_rect hw hh d])
    else Ok path
  else if geb d R_ then Ok (path ++ [inset_rect hw hh d])
  else
    s <- math_sqrt (R_ * R_ - d * d) ;;
    if leb hw s || leb hh s then Ok (path ++ [inset_rect hw hh d])
    else
      let path := path ++ [MoveTo (- hw + s, - hh + d)] in
      let path := path ++ [LineTo (hw - s, - hh + d)] in
      let path :=
        _add_offset_arc path hw (- hh) R_
          (hw - s) (- hh + d) (hw - d) (- hh + s) n_arc in
      let path := path ++ [LineTo (hw - d, hh - s)] in
      let path :=
        _add_offset_arc path hw hh R_
          (hw - d) (hh - s) (hw - s) (hh - d) n_arc in
      let path := path ++ [LineTo (- hw + s, hh - d)] in
      let path :=
        _add_offset_arc path (- hw) hh R_
          (- hw + s) (hh - d) (- hw + d) (hh - s) n_arc in
      let path := path ++ [LineTo (- hw + d, - hh + s)] in
      let path :=
        _add_offset_arc path (- hw) (- hh) R_
          (- hw + d) (- hh + s) (- hw + s) (- hh + d) n_arc in
      Ok (path ++ [CloseSubpath]).

(** The size selection of [PreviewWidget.paintEvent]:
    [p.sizes if p.sizes and len(p.sizes) == len(p.lines)
     else auto_font_sizes(p)]. *)
Definition preview_sizes (p : SignParams) : result (list R) :=
  match sizes p with
  | Some ((_ :: _) as explicit) =>
      if (List.length explicit =? List.length (lines p))%nat
      then Ok explicit
      else auto_font_sizes p
  | _ => auto_font_sizes p
  end.

(** ** Reading a path as curves *)

(** The point the pen is at after the path's last element. *)
Definition pen_position (path : QPainterPath) : option point2 :=
  match last path CloseSubpath with
  | MoveTo p | LineTo p => Some p
  | AddRect x y _ _ => Some (x, y)
  | CloseSubpath => None
  end.

(** Euclidean distance. *)
Definition dist (p q : point2) : R :=
  sqrt ((fst q - fst p) * (fst q - fst p) + (snd q - snd p) * (snd q - snd p)).





(** The [i]-th edge of a closed polygon joins vertex [i] to the next
    vertex, the last one to the first. *)
Definition edge (poly : list point2) (i : nat) : point2 * point2 :=
  (nth i poly (0, 0), nth (S i mod List.length poly) poly (0, 0)).



(* ================================================================== *)
(** * namesign_gui.py: the preview widget *)
(* ================================================================== *)

(** [math.radians(deg)] *)
Definition radians (deg : R) : R := deg * (PI / 180).

(** The points [PreviewWidget._add_concave_arc] draws lines to. *)
Definition concave_arc_samples (cx cy r start_deg end_deg : R)
  (segments : nat) : QPainterPath :=
  map (fun i : nat =>
         let t := INR i / INR segments in
         let angle := radians (start_deg + (end_deg - start_deg) * t) in
         let x := cx + r * cos angle in
         let y := cy + r * sin angle in
         LineTo (x, y))
      (seq 1 segments).

(** Add a concave arc to the path (arc centered at corner). *)
Definition _add_concave_arc (path : QPainterPath)
  (cx cy r start_deg end_deg : R) (segments : nat) : QPainterPath :=
  path ++ concave_arc_samples cx cy r start_deg end_deg segments.

(** A path of the preview: one holding a single rounded rectangle,
    [path.addRoundedRect(QRectF(x, y, w, h), xRadius, yRadius)], or one
    built from the elements of [QPainterPath]. *)
Inductive PreviewPath : Type :=
| RoundedRect (x y w h xRadius yRadius : R)
| Elements (path : QPainterPath).

(** Build a QPainterPath for the sign outline. *)
Definition _build_outline_path (w h r : R) (style : string) : PreviewPath :=
  let hw := w / 2 in
  let hh := h / 2 in
  if (style =? "rounded")%string && gtb r 0.1 then
    let r := Rmin (Rmin r (hw - 0.1)) (hh - 0.1) in
    RoundedRect (- hw) (- hh) w h r r
  else if (style =? "concave")%string && gtb r 0.1 then
    let r := Rmin (Rmin r (hw - 0.1)) (hh - 0.1) in
    let segments := 16%nat in
    let path : QPainterPath := [] in
    let path := path ++ [MoveTo (- hw + r, - hh)] in
    let path := path ++ [LineTo (hw - r, - hh)] in
    let path := _add_concave_arc path hw (- hh) r 180 90 segments in
    let path := path ++ [LineTo (hw, hh - r)] in
    let path := _add_concave_arc path hw hh r 270 180 segments in
    let path := path ++ [LineTo (- hw + r, hh)] in
    let path := _add_concave_arc path (- hw) hh r 0 (-90) segments in
    let path := path ++ [LineTo (- hw, - hh + r)] in
    let path := _add_concave_arc path (- hw) (- hh) r 90 0 segments in
    Elements (path ++ [CloseSubpath])
  else Elements [AddRect (- hw) (- hh) w h].

(** Build outer and inner border paths; the inner path is [None] when the
    dimension-based branch has no room for it. *)
Definition _build_border_paths (p : SignParams)
  : result (PreviewPath * option PreviewPath) :=
  let off := border_offset p in
  let bw := border_width p in
  let r := corner_radius p in
  let hw := width p / 2 in
  let hh := height p / 2 in
  if (border_style p =? "concave")%string && gtb r 0.1 then
    let r_clamped := Rmin (Rmin r (hw - 0.1)) (hh - 0.1) in
    outer_path <- _build_offset_concave_path hw hh r_clamped off 16 ;;
    inner_path <- _build_offset_concave_path hw hh r_clamped (off + bw) 16 ;;
    Ok (Elements outer_path, Some (Elements inner_path))
  else
    let outer_w := width p - 2 * off in
    let outer_h := height p - 2 * off in
    let outer_r := Rmax 0 (r - off) in
    let inner_w := outer_w - 2 * bw in
    let inner_h := outer_h - 2 * bw in
    let inner_r := Rmax 0 (outer_r - bw) in
    let outer_path :=
      _build_outline_path outer_w outer_h outer_r (border_style p) in
    let inner_path :=
      if gtb inner_w 0 && gtb inner_h 0
      then Some (_build_outline_path inner_w inner_h inner_r (border_style p))
      else None in
    Ok (outer_path, inner_path).

(** [QRectF.isNull()]: width and height are both zero. *)
Definition is_null (w h : R) : bool :=
  (if Req_dec_T w 0 then true else false)
  && (if Req_dec_T h 0 then true else false).

(** Whether a call leaves an empty path empty: a [moveTo] or a
    [closeSubpath] does, [addRect] does for a null rectangle, a [lineTo]
    never does. *)
Definition adds_nothing (e : PathElement) : bool :=
  match e with
  | MoveTo _ | CloseSubpath => true
  | LineTo _ => false
  | AddRect _ _ w h => is_null w h
  end.

(** [path.isEmpty()]: the path has no element, or a [moveTo] only;
    [addRoundedRect] adds nothing for a null rectangle. *)
Definition isEmpty (path : PreviewPath) : bool :=
  match path with
  | RoundedRect _ _ w h _ _ => is_null w h
  | Elements calls => forallb adds_nothing calls
  end.

(** What [paintEvent] fills in black for the border: the outer shape, or
    the outer shape minus the inner one. *)
Inductive BorderShape : Type :=
| Whole (outer : PreviewPath)
| Ring (outer inner : PreviewPath).

(** The border of [PreviewWidget.paintEvent], for a widget with room to
    draw in: [None] when nothing is drawn for it. *)
Definition preview_border (p : SignParams) : result (option BorderShape) :=
  if leb (width p) 0 || leb (height p) 0 then Ok None
  else if negb (border_style p =? "none")%string && gtb (border_width p) 0
  then
    paths <- _build_border_paths p ;;
    let '(outer_path, inner_path) := paths in
    if negb (isEmpty outer_path) then
      match inner_path with
      | Some inner =>
          if negb (isEmpty inner) then Ok (Some (Ring outer_path inner))
          else Ok (Some (Whole outer_path))
      | None => Ok (Some (Whole outer_path))
      end
    else Ok None
  else Ok None.

(** What the repaint can raise up to its text layout: what the border
    paths and [auto_font_sizes] raise, and IndexError. *)
Inductive paint_exn : Type :=
| Propagated (e : exn)
| IndexError.

Inductive painted (A : Type) : Type :=
| Drawn (a : A)
| Fails (e : paint_exn).

Arguments Drawn {A} a.
Arguments Fails {A} e.

(** A result of namesign.py as the repaint sees it. *)
Definition painted_of {A : Type} (r : result A) : painted A :=
  match r with
  | Ok a => Drawn a
  | Raise e => Fails (Propagated e)
  end.

(** The text block of [PreviewWidget.paintEvent] up to [y_positions]: the
    [(text, size)] pairs of the non-empty lines and their vertical
    centers, [None] when every line is blank and the block is skipped.
    The loop reads [sizes[i] if i < len(sizes) else sizes[-1]] for each
    non-empty line, and there is one here: on an empty size list the
    first of them raises IndexError, on any other list none does. *)
Definition preview_text_block (p : SignParams)
  : painted (option (list (string * R) * list R)) :=
  match filter (fun l => truthy (strip l)) (lines p) with
  | [] => Drawn None
  | _ :: _ =>
      match preview_sizes p with
      | Raise e => Fails (Propagated e)
      | Ok [] => Fails IndexError
      | Ok ((_ :: _) as sizes) =>
          let line_data :=
            line_data_of (lines p) sizes (non_empty_indices (lines p)) in
          let y_positions :=
            _calc_line_positions line_data (line_spacing p) in
          Drawn (Some (line_data, y_positions))
      end
  end.

(** [PreviewWidget.paintEvent] up to the text layout, in a widget of the
    given width and height: the repaint returns before laying out
    anything when the plate has no positive size or the widget leaves no
    room inside its margins of 30; it then draws the border, and reaches
    the text block only if the border paths did not raise.  [None] when
    nothing is laid out. *)
Definition preview_layout (widget_width widget_height : Z) (p : SignParams)
  : painted (option (list (string * R) * list R)) :=
  if leb (width p) 0 || leb (height p) 0 then Drawn None
  else
    let margin := 30%Z in
    let avail_w := (widget_width - 2 * margin)%Z in
    let avail_h := (widget_height - 2 * margin)%Z in
    if (avail_w <=? 0)%Z || (avail_h <=? 0)%Z then Drawn None
    else
      match preview_border p with
      | Raise e => Fails (Propagated e)
      | Ok _ => preview_text_block p
      end.

(** The same two values as [_create_text_solids] computes them, [None]
    when it returns before computing them (no line has text). *)
Definition text_layout (p : SignParams)
  : result (option (list (string * R) * list R)) :=
  let line_texts := _get_line_texts p in
  let indices := non_empty_indices line_texts in
  match indices with
  | [] => Ok None
  | _ :: _ =>
      sizes <- chosen_sizes p line_texts ;;
      let line_data := line_data_of line_texts sizes indices in
      let y_positions := _calc_line_positions line_data (line_spacing p) in
      Ok (Some (line_data, y_positions))
  end.

(* ================================================================== *)
(** * namesign_gui.py: the parameter panel *)
(* ================================================================== *)

(** What [get_params] reads from the widgets: the fragments of each block
    of the text document, already as runs (text, bold, italic,
    underline), and the values of the spin boxes and combo boxes. *)
Record PanelState : Type := mkPanelState {
  blocks : list (list StyledRun.t);
  width_spin : R;
  height_spin : R;
  thickness_spin : R;
  text_depth_spin : R;
  font_family : string;
  border_style_index : Z;
  corner_radius_spin : R;
  border_offset_spin : R;
  border_width_spin : R;
  line_spacing_spin : R
}.

(** The placeholder run of a blank line, [StyledRun(text="")]. *)
Definition blank_run : StyledRun.t := StyledRun.mk "" false false false.

(** Extract per-run styled text from the QTextEdit: a block without
    fragments becomes the placeholder run. *)
Definition get_styled_lines (st : PanelState) : list (list StyledRun.t) :=
  map (fun runs => match runs with [] => [blank_run] | _ :: _ => runs end)
      (blocks st).

(** [["concave", "rounded", "none"][idx]]: a negative index counts from
    the end, and [None] stands for IndexError. *)
Definition get_border_style_str (idx : Z) : option string :=
  let items := ["concave"; "rounded"; "none"]%string in
  if (0 <=? idx)%Z then nth_error items (Z.to_nat idx)
  else if (-3 <=? idx)%Z then nth_error items (Z.to_nat (3 + idx))
  else None.

(** [ParameterPanel.get_params]; [None] when the border style index is
    out of range. *)
Definition get_params (st : PanelState) : option SignParams :=
  let styled_lines := get_styled_lines st in
  let lines := map (fun runs => join (map StyledRun.text runs)) styled_lines in
  let blank := negb (existsb (fun l => truthy (strip l)) lines) in
  let lines := if blank then [EmptyString] else lines in
  let styled_lines := if blank then [[blank_run]] else styled_lines in
  match get_border_style_str (border_style_index st) with
  | None => None
  | Some style =>
      Some (mkSignParams lines (Some styled_lines) None
              (width_spin st) (height_spin st) (thickness_spin st)
              (text_depth_spin st) (font_family st) false false false
              style (corner_radius_spin st) (border_offset_spin st)
              (border_width_spin st) (line_spacing_spin st) "namesign")
  end.

(** The panel as it starts: the two default lines as one plain fragment
    each, and the default values of the spin boxes. *)
Definition initial_panel : PanelState := {|
  blocks := [[StyledRun.mk "Her bor" false false false];
             [StyledRun.mk "Ola Nordmann" false false false]];
  width_spin := 180;
  height_spin := 120;
  thickness_spin := 3;
  text_depth_spin := 0.6;
  font_family := "Arial";
  border_style_index := 0;
  corner_radius_spin := 12;
  border_offset_spin := 6;
  border_width_spin := 2;
  line_spacing_spin := 1.3
|}.

(** ** Style groups *)

(** The key [(bold, italic)] two groups are compared by. *)
Definition group_style (g : Group) : bool * bool := (g_bold g, g_italic g).

(** Consecutive groups have different (bold, italic). *)
Fixpoint adjacent_styles_differ (groups : list Group) : Prop :=
  match groups with
  | g :: (g' :: _) as rest =>
      group_style g <> group_style g' /\ adjacent_styles_differ rest
  | _ => True
  end.

(** A group holds at least one run, every run of it has text, and its
    merged text is the runs' texts in order. *)
Definition group_well_formed (g : Group) : Prop :=
  g_runs g <> []
  /\ Forall (fun r : string * bool => truthy (fst r) = true) (g_runs g)
  /\ g_text g = join (map fst (g_runs g)).

(** ** Where the solids of a line lie *)

(** [solid] belongs to a line at height [y] and font size [font_size]
    and stays between [lo] and [hi] horizontally: it is a text at height
    [y], or an underline rectangle under that line (at [y - 0.35 *
    font_size], of thickness [max(0.4, 0.06 * font_size)] and the text
    depth) whose left and right edges lie within [lo] and [hi]. *)
Definition line_solid_within (params : SignParams) (font_size y lo hi : R)
  (solid : Solid) : Prop :=
  (exists (cx : R) (txt : string) (kwargs : FontSpec),
     solid = Text (cx, y) txt font_size (text_depth params) kwargs)
  \/ (exists cx w : R,
        solid
        = Extrude
            (Rect (cx, y - font_size * UL_Y_OFFSET) w
               (Rmax 0.4 (font_size * 0.06)))
            (text_depth params)
        /\ lo <= cx - w / 2 /\ cx + w / 2 <= hi).

(** ** Reading a drawn wire *)

(** [q] lies on the circle about [center] of the given radius. *)
Definition on_circle (center : point2) (radius : R) (q : point2) : Prop :=
  (fst q - fst center) * (fst q - fst center)
  + (snd q - snd center) * (snd q - snd center)
  = radius * radius.

(** The straight edges a wire draws from [current] on, each from its
    start to its end. *)
Fixpoint wire_lines (current : point2) (cmds : list PathCmd)
  : list (point2 * point2) :=
  match cmds with
  | [] => []
  | lineTo q :: rest => (current, q) :: wire_lines q rest
  | threePointArc _ fin :: rest => wire_lines fin rest
  end.

(** The arcs a wire draws from [current] on, each as its start, the point
    it passes through and its end. *)
Fixpoint wire_arcs (current : point2) (cmds : list PathCmd)
  : list (point2 * point2 * point2) :=
  match cmds with
  | [] => []
  | lineTo q :: rest => wire_arcs q rest
  | threePointArc mid fin :: rest =>
      (current, mid, fin) :: wire_arcs fin rest
  end.

(** The point a wire reaches after its last command. *)
Fixpoint wire_end (current : point2) (cmds : list PathCmd) : point2 :=
  match cmds with
  | [] => current
  | lineTo q :: rest => wire_end q rest
  | threePointArc _ fin :: rest => wire_end fin rest
  end.

(** All three points of an arc lie on the circle about [center]. *)
Definition arc_on_circle (radius : R) (center : point2)
  (arc : point2 * point2 * point2) : Prop :=
  let '(start, mid, fin) := arc in
  on_circle center radius start
  /\ on_circle center radius mid
  /\ on_circle center radius fin.

(** A sample drawn to lies on the circle about [center]. *)
Definition sample_on_circle (center : point2) (radius : R)
  (e : PathElement) : Prop :=
  exists q : point2, e = LineTo q /\ on_circle center radius q.

(* ================================================================== *)
(** * The code on small inputs *)
(* ================================================================== *)

Example strip_both_ends : strip "  Her bor  " = "Her bor"%string.
Proof. reflexivity. Qed.

Example strip_blank : truthy (strip "   ") = false.
Proof. reflexivity. Qed.

(** The runs ["Her " (bold)] and ["bor" (plain)] read "Her bor" and make
    two style groups. *)
Example styled_line_text :
  _get_line_texts
    (mkSignParams ["ignored"%string]
       (Some [[StyledRun.mk "Her " true false false;
               StyledRun.mk "bor" false false false]])
       None 180 120 3 0.6 "Arial" false false false "concave" 12 6 2 1.3
       "namesign")
  = ["Her bor"%string].
Proof. reflexivity. Qed.

Example merge_two_styles :
  merge_runs [StyledRun.mk "Her " true false false;
              StyledRun.mk "bor" false false false]
  = [mkGroup "Her " true false [("Her "%string, false)];
     mkGroup "bor" false false [("bor"%string, false)]].
Proof. reflexivity. Qed.

(** Runs that differ in underline only share a group. *)
Example merge_same_style :
  merge_runs [StyledRun.mk "Ola " false false true;
              StyledRun.mk "" true true false;
              StyledRun.mk "Nordmann" false false false]
  = [mkGroup "Ola Nordmann" false false
       [("Ola "%string, true); ("Nordmann"%string, false)]].
Proof. reflexivity. Qed.

Example non_empty_indices_skip_blank :
  non_empty_indices ["Her bor"; "  "; "Ola Nordmann"]%string = [0; 2]%nat.
Proof. reflexivity. Qed.

Example two_line_centers :
  _calc_line_positions [("a", 10); ("b", 20)]%string 1
  = [(0 + (10 / 2 + 20 / 2) * 1) / 2;
     (0 + (10 / 2 + 20 / 2) * 1) / 2 - (10 / 2 + 20 / 2) * 1].
Proof. reflexivity. Qed.

(* ================================================================== *)
(** * Vocabulary of the specification *)
(* ================================================================== *)

(** The non-empty lines of a configuration, as [auto_font_sizes] selects
    them. *)
Definition non_empty_lines (params : SignParams) : list string :=
  filter (fun l => truthy (strip l)) (_get_line_texts params).

(** The space left for text after padding. *)
Definition available_w (params : SignParams) : R :=
  width params - 2 * padding_of params.

Definition available_h (params : SignParams) : R :=
  height params - 2 * padding_of params.

(** Height of a stack of [n] lines of font size [size] whose centers are
    [size * line_spacing] apart: half a line above the first center, the
    gaps, half a line below the last center. *)
Definition stack_height (n : nat) (size line_spacing : R) : R :=
  size / 2 + (INR n - 1) * (size * line_spacing) + size / 2.

(** Estimated width of a text at font size [size]: character count times
    the average-width ratio times the size. *)
Definition estimated_width (text : string) (size : R) : R :=
  len text * CHAR_WIDTH_RATIO * size.

(** Font size [size] fits the configuration: the stack of its non-empty
    lines fits the available height and every line's estimated width fits
    the available width. *)
Definition fits (params : SignParams) (size : R) : Prop :=
  stack_height (List.length (non_empty_lines params)) size
    (line_spacing params) <= available_h params
  /\ Forall
       (fun line => estimated_width (strip line) size <= available_w params)
       (_get_line_texts params).

(** The plate of a configuration, as [generate_sign] builds it. *)
Definition plate_of (params : SignParams) : Solid :=
  _create_outline_solid (width params) (height params)
    (corner_radius params) (border_style params) (thickness params).

(** The default plate with the two lines "A" and "B" at a given line
    spacing. *)
Definition two_letters_params (ls : R) : SignParams := {|
  lines := ["A"; "B"]%string;
  styled_lines := None;
  sizes := None;
  width := 180;
  height := 120;
  thickness := 3;
  text_depth := 0.6;
  font := "Arial";
  bold := false;
  italic := false;
  underline := false;
  border_style := "concave";
  corner_radius := 12;
  border_offset := 6;
  border_width := 2;
  line_spacing := ls;
  output := "namesign"
|}.

(** The single underlined line "A" at the explicit size 10 on a plate
    without border, for a given plate thickness and text depth. *)
Definition underlined_letter_params (plate_thickness depth : R)
  : SignParams := {|
  lines := ["A"]%string;
  styled_lines := None;
  sizes := Some [10];
  width := 180;
  height := 120;
  thickness := plate_thickness;
  text_depth := depth;
  font := "Arial";
  bold := false;
  italic := false;
  underline := true;
  border_style := "none";
  corner_radius := 12;
  border_offset := 6;
  border_width := 2;
  line_spacing := 1.3;
  output := "namesign"
|}.

(** Two lines with a single explicit size. *)
Definition mismatched_sizes_params : SignParams := {|
  lines := ["A"; "B"]%string;
  styled_lines := None;
  sizes := Some [10];
  width := 180;
  height := 120;
  thickness := 3;
  text_depth := 0.6;
  font := "Arial";
  bold := false;
  italic := false;
  underline := false;
  border_style := "concave";
  corner_radius := 12;
  border_offset := 6;
  border_width := 2;
  line_spacing := 1.3;
  output := "namesign"
|}.

(** What the parameter panel hands over when the text box is empty, with
    the border style set to none. *)
Definition blank_params : SignParams := {|
  lines := [""]%string;
  styled_lines := Some [[StyledRun.mk "" false false false]];
  sizes := None;
  width := 180;
  height := 120;
  thickness := 3;
  text_depth := 0.6;
  font := "Arial";
  bold := false;
  italic := false;
  underline := false;
  border_style := "none";
  corner_radius := 12;
  border_offset := 6;
  border_width := 2;
  line_spacing := 1.3;
  output := "namesign"
|}.

(** A host without font files whose kernel renders every text and raises
    on every [offset2D]; drawn wires and texts are given no extent. *)
Definition offsetless_kernel : CadQuery := {|
  _find_font_path := fun _ _ _ => None;
  text_raises := fun _ _ _ _ _ => false;
  offset2D_raises := fun _ _ => true;
  kernel_face := fun _ _ => False;
  text_volume := fun _ _ _ _ _ _ => False
|}.

(* ================================================================== *)
(** * Proof tools *)
(* ================================================================== *)

Lemma leb_true (a b : R) : leb a b = true <-> a <= b.
Proof.
  unfold leb. destruct (Rle_dec a b); split; intros; auto; discriminate.
Qed.

Lemma leb_false (a b : R) : leb a b = false <-> b < a.
Proof.
  unfold leb.
  destruct (Rle_dec a b); split; intros; auto; try discriminate; lra.
Qed.

Lemma ltb_true (a b : R) : ltb a b = true <-> a < b.
Proof.
  unfold ltb. destruct (Rlt_dec a b); split; intros; auto; discriminate.
Qed.

Lemma ltb_false (a b : R) : ltb a b = false <-> b <= a.
Proof.
  unfold ltb.
  destruct (Rlt_dec a b); split; intros; auto; try discriminate; lra.
Qed.

(** Decide every [min] and [max] in sight. *)
Ltac minmax_cases :=
  unfold Rmax, Rmin in *;
  repeat match goal with
    | |- context [Rle_dec ?a ?b] => destruct (Rle_dec a b)
    | H : context [Rle_dec ?a ?b] |- _ => destruct (Rle_dec a b)
    end.

(* ================================================================== *)
(** * Corner radius clamping (C7) *)
(* ================================================================== *)

Lemma clamp_radius_nonneg (r w h : R) : 0 <= _clamp_radius r w h.
Proof. unfold _clamp_radius. apply Rmax_l. Qed.

Lemma small_radius_concave_rect (w h r : R) :
  _clamp_radius r w h < 0.1 -> _create_concave_wire w h r = Rect (0, 0) w h.
Proof.
  intros Hsmall. unfold _create_concave_wire.
  apply ltb_true in Hsmall. now rewrite Hsmall.
Qed.

Lemma small_radius_rounded_rect (w h r : R) :
  _clamp_radius r w h < 0.1 -> _create_rounded_wire w h r = Rect (0, 0) w h.
Proof.
  intros Hsmall. unfold _create_rounded_wire.
  apply ltb_true in Hsmall. now rewrite Hsmall.
Qed.

Lemma small_radius_outline_rect (w h r : R) (style : string) :
  _clamp_radius r w h < 0.1 ->
  _create_outline_wire w h r style = Rect (0, 0) w h.
Proof.
  intros Hsmall. unfold _create_outline_wire.
  destruct (style =? "concave")%string.
  - now apply small_radius_concave_rect.
  - destruct (style =? "rounded")%string; trivial.
    now apply small_radius_rounded_rect.
Qed.

(** C7, as the specification states its first part: the effective radius
    never exceeds min(requested, width/2 - 0.1, height/2 - 0.1).  It fails
    for a plate of width and height 0 (the non-positive dimensions the
    outline builder degenerates on), where the minimum is -0.1 and the
    clamped radius is 0, and for a requested radius of -5 on the default
    plate, where the minimum is -5 and the clamped radius is 0. *)
Lemma clamp_radius_exceeds_negative_min :
  _clamp_radius 12 0 0 = 0
  /\ Rmin (Rmin 12 (0 / 2 - 0.1)) (0 / 2 - 0.1) = -0.1
  /\ ~ (_clamp_radius 12 0 0 <= Rmin (Rmin 12 (0 / 2 - 0.1)) (0 / 2 - 0.1))
  /\ ~ (_clamp_radius (-5) 180 120
        <= Rmin (Rmin (-5) (180 / 2 - 0.1)) (120 / 2 - 0.1)).
Proof. unfold _clamp_radius. repeat split; minmax_cases; lra. Qed.

(** C7 (amended): the effective radius is never negative; it never exceeds
    min(requested, width/2 - 0.1, height/2 - 0.1) whenever that minimum is
    not negative (and then equals it), and is 0 otherwise; when the clamped
    radius is below 0.1 the outline is the plain axis-aligned rectangle, in
    every style; for width 40, height 20 and requested radius 100 the
    effective radius does not exceed min(20 - 0.1, 10 - 0.1). *)
Theorem clamp_radius_bounds (r w h : R) :
  let m := Rmin (Rmin r (w / 2 - 0.1)) (h / 2 - 0.1) in
  0 <= _clamp_radius r w h
  /\ (0 <= m -> _clamp_radius r w h = m /\ _clamp_radius r w h <= m)
  /\ (m < 0 -> _clamp_radius r w h = 0)
  /\ (forall style : string,
        _clamp_radius r w h < 0.1 ->
        _create_outline_wire w h r style = Rect (0, 0) w h)
  /\ _clamp_radius 100 40 20 <= Rmin (20 - 0.1) (10 - 0.1).
Proof.
  cbv zeta. split; [apply clamp_radius_nonneg|].
  split; [|split; [|split]].
  - intros Hm. unfold _clamp_radius in *. minmax_cases; lra.
  - intros Hm. unfold _clamp_radius in *. minmax_cases; lra.
  - intros style. apply small_radius_outline_rect.
  - unfold _clamp_radius. minmax_cases; lra.
Qed.

(** Width 40, height 20, requested radius 100: the effective radius is
    9.9. *)
Lemma clamp_radius_bounds_oversized :
  0 <= Rmin (Rmin 100 (40 / 2 - 0.1)) (20 / 2 - 0.1)
  /\ _clamp_radius 100 40 20 = 9.9.
Proof.
  assert (Hm : Rmin (Rmin 100 (40 / 2 - 0.1)) (20 / 2 - 0.1) = 9.9)
    by (minmax_cases; lra).
  split; [rewrite Hm; lra|].
  destruct (clamp_radius_bounds 100 40 20) as (_ & Hclamp & _).
  cbv zeta in Hclamp. rewrite Hm in Hclamp. apply Hclamp. lra.
Defined.

(* ================================================================== *)
(** * Vertical line centers (C3) *)
(* ================================================================== *)

Lemma fold_left_Rplus_acc (xs : list R) (a : R) :
  fold_left Rplus xs a = a + fold_left Rplus xs 0.
Proof.
  revert a. induction xs as [|x xs IH]; intros a; simpl.
  - lra.
  - rewrite IH. rewrite (IH (0 + x)). lra.
Qed.

Lemma sum_cons (x : R) (xs : list R) : sum (x :: xs) = x + sum xs.
Proof.
  unfold sum. simpl. rewrite fold_left_Rplus_acc. lra.
Qed.

Lemma sum_nil : sum [] = 0.
Proof. reflexivity. Qed.

(** The last center of a stack lies the whole span below its first. *)
Lemma last_stack_below (gaps : list R) (y : R) :
  last (y :: stack_below y gaps) 0 = y - sum gaps.
Proof.
  revert y. induction gaps as [|g gaps IH]; intros y.
  - simpl. rewrite sum_nil. lra.
  - change (stack_below y (g :: gaps))
      with ((y - g) :: stack_below (y - g) gaps).
    change (last (y :: (y - g) :: stack_below (y - g) gaps) 0)
      with (last ((y - g) :: stack_below (y - g) gaps) 0).
    rewrite IH, sum_cons. lra.
Qed.

(** With a constant gap, the centers below [y] add up to an arithmetic
    series. *)
Lemma sum_stack_below_repeat (g : R) (m : nat) (y : R) :
  sum (stack_below y (repeat g m)) = INR m * y - g * (INR m * (INR m + 1) / 2).
Proof.
  revert y. induction m as [|m IH]; intros y.
  - simpl. rewrite sum_nil. lra.
  - change (repeat g (S m)) with (g :: repeat g m).
    change (stack_below y (g :: repeat g m))
      with ((y - g) :: stack_below (y - g) (repeat g m)).
    rewrite sum_cons, IH, S_INR. field.
Qed.

Lemma sum_repeat (g : R) (m : nat) : sum (repeat g m) = INR m * g.
Proof.
  induction m as [|m IH].
  - simpl. rewrite sum_nil. lra.
  - change (repeat g (S m)) with (g :: repeat g m).
    rewrite sum_cons, IH, S_INR. lra.
Qed.

(** Lines of one size are a constant gap apart. *)
Lemma line_gaps_uniform (line_data : list (string * R)) (size ls : R) :
  Forall (fun d => snd d = size) line_data ->
  line_gaps line_data ls
  = repeat (size * ls) (Nat.pred (List.length line_data)).
Proof.
  induction line_data as [|a rest IH]; intros Hall; [reflexivity|].
  destruct rest as [|b rest']; [reflexivity|].
  inversion Hall as [|? ? Ha Hrest]; subst.
  specialize (IH Hrest).
  inversion Hrest as [|? ? Hb _]; subst.
  change (line_gaps (a :: b :: rest') ls)
    with ((snd a / 2 + snd b / 2) * ls :: line_gaps (b :: rest') ls).
  rewrite IH, Hb. simpl. f_equal. field.
Qed.

(** C3, as the specification states it: the centers of any list of lines
    add up to 0.  It fails for three lines of sizes 10, 10 and 20 at line
    spacing 1: the centers are 12.5, 2.5 and -12.5. *)
Lemma line_centers_sum_nonzero :
  _calc_line_positions [("a", 10); ("b", 10); ("c", 20)]%string 1
  = [ (0 + (10 / 2 + 10 / 2) * 1 + (10 / 2 + 20 / 2) * 1) / 2;
      (0 + (10 / 2 + 10 / 2) * 1 + (10 / 2 + 20 / 2) * 1) / 2
      - (10 / 2 + 10 / 2) * 1;
      (0 + (10 / 2 + 10 / 2) * 1 + (10 / 2 + 20 / 2) * 1) / 2
      - (10 / 2 + 10 / 2) * 1 - (10 / 2 + 20 / 2) * 1 ]
  /\ sum (_calc_line_positions [("a", 10); ("b", 10); ("c", 20)]%string 1)
     = 5 / 2
  /\ sum (_calc_line_positions [("a", 10); ("b", 10); ("c", 20)]%string 1)
     <> 0.
Proof.
  split; [reflexivity|].
  assert (Hsum :
    sum (_calc_line_positions [("a", 10); ("b", 10); ("c", 20)]%string 1)
    = 5 / 2).
  { unfold _calc_line_positions, sum. simpl. lra. }
  split; [exact Hsum|]. rewrite Hsum. lra.
Qed.

(** C3 (amended): a single line is centered exactly at 0; for any lines
    and spacing the first and the last center are opposite (the stack's
    span is centered on zero); and when all lines have the same font size,
    as automatic sizing makes them, the centers add up to 0. *)
Theorem line_centers_symmetric (line_data : list (string * R)) (ls : R) :
  (forall d : string * R, _calc_line_positions [d] ls = [0])
  /\ hd 0 (_calc_line_positions line_data ls)
     + last (_calc_line_positions line_data ls) 0 = 0
  /\ (forall size : R,
        Forall (fun d => snd d = size) line_data ->
        sum (_calc_line_positions line_data ls) = 0).
Proof.
  split; [reflexivity|]. split.
  - destruct line_data as [|a [|b rest]]; [simpl; lra | simpl; lra |].
    unfold _calc_line_positions.
    rewrite last_stack_below. cbn [hd]. lra.
  - intros size Hall.
    destruct line_data as [|a [|b rest]];
      [reflexivity | unfold _calc_line_positions, sum; simpl; lra |].
    unfold _calc_line_positions.
    rewrite (line_gaps_uniform _ size ls Hall).
    rewrite sum_cons, sum_stack_below_repeat, sum_repeat.
    set (m := INR (Nat.pred (List.length (a :: b :: rest)))).
    field.
Qed.

(** Three lines of size 10 at the default spacing: the centers add up
    to 0. *)
Lemma line_centers_symmetric_uniform :
  sum (_calc_line_positions [("a", 10); ("b", 10); ("c", 10)]%string 1.3) = 0.
Proof.
  apply (proj2 (proj2 (line_centers_symmetric
                         [("a", 10); ("b", 10); ("c", 10)]%string 1.3))
           10).
  repeat constructor.
Defined.

(* ================================================================== *)
(** * Automatic font sizes (C4, C6) *)
(* ================================================================== *)

Lemma len_truthy_pos (s : string) : truthy s = true -> 0 < len s.
Proof.
  destruct s as [|c s]; [discriminate|]. intros _.
  unfold len. apply lt_0_INR. simpl. lia.
Qed.

Lemma len_falsy_zero (s : string) : truthy s = false -> len s = 0.
Proof. destruct s; [reflexivity | discriminate]. Qed.

Lemma char_width_ratio_pos : 0 < CHAR_WIDTH_RATIO.
Proof. unfold CHAR_WIDTH_RATIO. lra. Qed.

Lemma pydiv_ok (a b : R) : b <> 0 -> pydiv a b = Ok (a / b).
Proof.
  intros Hb. unfold pydiv.
  destruct (Req_dec_T b 0); [contradiction | reflexivity].
Qed.

Lemma pydiv_zero (a : R) : pydiv a 0 = Raise ZeroDivisionError.
Proof.
  unfold pydiv. destruct (Req_dec_T 0 0); [reflexivity | contradiction].
Qed.

(** A size is at most [w / c] exactly when [c] times it is at most [w]. *)
Lemma le_div_iff (v w c : R) : 0 < c -> (v <= w / c <-> c * v <= w).
Proof.
  intros Hc. split; intros H.
  - apply Rmult_le_compat_l with (r := c) in H; [|lra].
    replace (c * (w / c)) with w in H by (field; lra). exact H.
  - apply Rmult_le_reg_l with (r := c); [lra|].
    replace (c * (w / c)) with w by (field; lra). exact H.
Qed.

(** The width loop returns the largest size below its starting size at
    which every line's estimated width fits. *)
Lemma cap_by_lines_largest (lines : list string) (w u : R) :
  0 <= w ->
  exists u' : R,
    cap_by_lines lines w u = Ok u'
    /\ u' <= u
    /\ Forall (fun line => estimated_width (strip line) u' <= w) lines
    /\ (forall v : R,
          v <= u ->
          Forall (fun line => estimated_width (strip line) v <= w) lines ->
          v <= u').
Proof.
  intros Hw. revert u. induction lines as [|line rest IH]; intros u.
  - exists u. simpl. repeat split; auto; lra.
  - simpl. destruct (truthy (strip line)) eqn:Hline; simpl.
    + pose proof (len_truthy_pos _ Hline) as Hlen.
      pose proof char_width_ratio_pos as Hratio.
      assert (Hc : 0 < len (strip line) * CHAR_WIDTH_RATIO) by nra.
      rewrite pydiv_ok by lra. simpl.
      set (max_w := w / (len (strip line) * CHAR_WIDTH_RATIO)).
      destruct (IH (Rmin u max_w)) as (u' & Heq & Hle & Hall & Hmax).
      exists u'. split; [exact Heq|].
      assert (Hu : u' <= u) by (pose proof (Rmin_l u max_w); lra).
      assert (Hm : u' <= max_w) by (pose proof (Rmin_r u max_w); lra).
      split; [exact Hu|]. split.
      * constructor; [|exact Hall].
        unfold estimated_width. apply le_div_iff in Hm; [lra | exact Hc].
      * intros v Hv Hfit. inversion Hfit as [|? ? Hhead Hrest]; subst.
        apply Hmax; [|exact Hrest].
        apply Rmin_glb; [exact Hv|].
        apply le_div_iff; [exact Hc|]. unfold estimated_width in Hhead. lra.
    + destruct (IH u) as (u' & Heq & Hle & Hall & Hmax).
      exists u'. split; [exact Heq|]. split; [exact Hle|]. split.
      * constructor; [|exact Hall].
        unfold estimated_width. rewrite (len_falsy_zero _ Hline). lra.
      * intros v Hv Hfit. inversion Hfit; subst. now apply Hmax.
Qed.

Lemma stack_height_factor (n : nat) (size ls : R) :
  stack_height n size ls = (1 + (INR n - 1) * ls) * size.
Proof. unfold stack_height. field. Qed.

(** [auto_font_sizes] on a configuration with a non-empty line and
    positive available space: the division and the width loop. *)
Lemma auto_font_sizes_regular (p : SignParams) :
  non_empty_lines p <> [] ->
  0 < available_w p ->
  0 < available_h p ->
  auto_font_sizes p
  = (base_size <-
       pydiv (available_h p)
         (1 + (INR (List.length (non_empty_lines p)) - 1) * line_spacing p) ;;
     uniform <- cap_by_lines (_get_line_texts p) (available_w p) base_size ;;
     Ok (repeat uniform (List.length (_get_line_texts p)))).
Proof.
  intros Hne Hw Hh. unfold auto_font_sizes.
  unfold non_empty_lines, available_w, available_h in *.
  destruct (_get_line_texts p) as [|l ls] eqn:Htexts; [now elim Hne|].
  cbn [List.length Nat.eqb].
  destruct (filter (fun l0 => truthy (strip l0)) (l :: ls)) eqn:Hfilter;
    [now elim Hne|].
  apply leb_false in Hw. apply leb_false in Hh. rewrite Hw, Hh.
  reflexivity.
Qed.

(** C4, as the specification states it: with a non-empty line and
    positive available space, auto-sizing returns a size for every line.
    It fails for two lines at line spacing -1: the height is divided by
    1 + (2 - 1) * (-1) = 0, and the call raises. *)
Lemma auto_font_sizes_raises :
  let p := set_line_spacing default_params (-1) in
  non_empty_lines p <> []
  /\ 0 < available_w p
  /\ 0 < available_h p
  /\ auto_font_sizes p = Raise ZeroDivisionError.
Proof.
  cbv zeta.
  assert (Hne : non_empty_lines (set_line_spacing default_params (-1)) <> [])
    by (cbv; discriminate).
  assert (Hpad : padding_of (set_line_spacing default_params (-1)) = 6 + 2 + 3).
  { unfold padding_of. cbn -[gtb Rplus Rmult Rmax].
    assert (H : gtb 2 0 = true) by (apply ltb_true; lra).
    now rewrite H. }
  assert (Hw : 0 < available_w (set_line_spacing default_params (-1)))
    by (unfold available_w; rewrite Hpad; simpl; lra).
  assert (Hh : 0 < available_h (set_line_spacing default_params (-1)))
    by (unfold available_h; rewrite Hpad; simpl; lra).
  repeat split; auto.
  rewrite (auto_font_sizes_regular _ Hne Hw Hh).
  replace (1 + (INR (List.length
                  (non_empty_lines (set_line_spacing default_params (-1)))) - 1)
               * line_spacing (set_line_spacing default_params (-1)))
    with 0.
  - now rewrite pydiv_zero.
  - change (non_empty_lines (set_line_spacing default_params (-1)))
      with (non_empty_lines default_params).
    replace (non_empty_lines default_params)
      with ["Her bor"; "Ola Nordmann"]%string by (vm_compute; reflexivity).
    simpl. lra.
Qed.

(** The padding is border-derived when a border is drawn and
    radius-derived otherwise. *)
Lemma padding_with_border (p : SignParams) :
  border_style p <> "none"%string ->
  0 < border_width p ->
  padding_of p = border_offset p + border_width p + 3.
Proof.
  intros Hstyle Hbw. unfold padding_of.
  apply String.eqb_neq in Hstyle. apply ltb_true in Hbw.
  unfold gtb. now rewrite Hstyle, Hbw.
Qed.

Lemma padding_without_border (p : SignParams) :
  border_style p = "none"%string \/ border_width p <= 0 ->
  padding_of p = Rmax (corner_radius p * 0.5) 4.
Proof.
  intros Hnone. unfold padding_of. destruct Hnone as [Hstyle | Hbw].
  - rewrite Hstyle. reflexivity.
  - apply ltb_false in Hbw. unfold gtb. rewrite Hbw.
    now rewrite andb_false_r.
Qed.

(** C4 (amended): for every configuration with at least one non-empty
    line, positive available space after the border- or radius-derived
    padding, and a line spacing for which 1 + (n - 1) * lineSpacing is
    positive (n the number of non-empty lines; every non-negative spacing
    is such), auto-sizing returns one font size for every line, and that
    size is the largest one at which the n-line stack fits the available
    height and every line's estimated width fits the available width; the
    padding is offset + width + 3 of the border when one is drawn and
    max(radius / 2, 4) otherwise. *)
Theorem auto_font_sizes_largest_fit (p : SignParams) :
  non_empty_lines p <> [] ->
  0 < available_w p ->
  0 < available_h p ->
  0 < 1 + (INR (List.length (non_empty_lines p)) - 1) * line_spacing p ->
  (exists uniform : R,
     auto_font_sizes p
     = Ok (repeat uniform (List.length (_get_line_texts p)))
     /\ fits p uniform
     /\ (forall size : R, fits p size -> size <= uniform))
  /\ (border_style p <> "none"%string -> 0 < border_width p ->
      padding_of p = border_offset p + border_width p + 3)
  /\ (border_style p = "none"%string \/ border_width p <= 0 ->
      padding_of p = Rmax (corner_radius p * 0.5) 4).
Proof.
  intros Hne Hw Hh Hden.
  split; [|split; [apply padding_with_border | apply padding_without_border]].
  rewrite (auto_font_sizes_regular p Hne Hw Hh).
  set (den := 1 + (INR (List.length (non_empty_lines p)) - 1) * line_spacing p)
    in *.
  rewrite pydiv_ok by lra. cbn [bind].
  destruct (cap_by_lines_largest (_get_line_texts p) (available_w p)
              (available_h p / den)) as (u & Heq & Hle & Hall & Hmax);
    [lra|].
  exists u. rewrite Heq. cbn [bind]. split; [reflexivity|]. split.
  - split; [|exact Hall].
    rewrite stack_height_factor. fold den.
    apply le_div_iff; assumption.
  - intros size [Hstack Hwidths]. apply Hmax; [|exact Hwidths].
    rewrite stack_height_factor in Hstack. fold den in Hstack.
    apply le_div_iff; assumption.
Qed.

(** The default configuration meets the hypotheses of
    [auto_font_sizes_largest_fit]. *)
Lemma auto_font_sizes_largest_fit_default :
  non_empty_lines default_params <> []
  /\ 0 < available_w default_params
  /\ 0 < available_h default_params
  /\ exists uniform : R,
       auto_font_sizes default_params
       = Ok (repeat uniform (List.length (_get_line_texts default_params)))
       /\ fits default_params uniform
       /\ (forall size : R, fits default_params size -> size <= uniform).
Proof.
  assert (Hne : non_empty_lines default_params <> []) by (cbv; discriminate).
  assert (Hpad : padding_of default_params = 6 + 2 + 3).
  { unfold padding_of. cbn -[gtb Rplus Rmult Rmax].
    assert (H : gtb 2 0 = true) by (apply ltb_true; lra).
    now rewrite H. }
  assert (Hw : 0 < available_w default_params)
    by (unfold available_w; rewrite Hpad; simpl; lra).
  assert (Hh : 0 < available_h default_params)
    by (unfold available_h; rewrite Hpad; simpl; lra).
  assert (Hden : 0 < 1 + (INR (List.length (non_empty_lines default_params))
                          - 1) * line_spacing default_params).
  { replace (non_empty_lines default_params)
      with ["Her bor"; "Ola Nordmann"]%string by (vm_compute; reflexivity).
    simpl. lra. }
  split; [exact Hne|]. split; [exact Hw|]. split; [exact Hh|].
  apply (proj1 (auto_font_sizes_largest_fit default_params Hne Hw Hh Hden)).
Defined.

(** [auto_font_sizes] never reads [params.sizes]. *)
Lemma auto_font_sizes_ignores_sizes (p : SignParams) (s : option (list R)) :
  auto_font_sizes (set_sizes p s) = auto_font_sizes p.
Proof. reflexivity. Qed.

(** The size list is one size, once per line, whatever branch returns. *)
Lemma auto_font_sizes_uniform (p : SignParams) (l : list R) :
  auto_font_sizes p = Ok l ->
  exists uniform : R, l = repeat uniform (List.length (_get_line_texts p)).
Proof.
  unfold auto_font_sizes.
  destruct (List.length (_get_line_texts p) =? 0)%nat eqn:Hn.
  - intros H. inversion H. exists 0.
    apply Nat.eqb_eq in Hn. now rewrite Hn.
  - destruct (filter _ _); [intros H; inversion H; eauto|].
    destruct (_ || _); [intros H; inversion H; eauto|].
    destruct (pydiv _ _) as [base|e]; [|discriminate]. cbn [bind].
    destruct (cap_by_lines _ _ _) as [u|e]; [|discriminate]. cbn [bind].
    intros H. inversion H. eauto.
Qed.

(** The width loop is monotone in its starting size. *)
Lemma cap_by_lines_mono (lines : list string) (w u1 u2 : R) :
  0 <= w ->
  u2 <= u1 ->
  exists v1 v2 : R,
    cap_by_lines lines w u1 = Ok v1
    /\ cap_by_lines lines w u2 = Ok v2
    /\ v2 <= v1.
Proof.
  intros Hw. revert u1 u2. induction lines as [|line rest IH]; intros u1 u2 Hu.
  - exists u1, u2. simpl. auto.
  - simpl. destruct (truthy (strip line)) eqn:Hline; simpl.
    + pose proof (len_truthy_pos _ Hline) as Hlen.
      pose proof char_width_ratio_pos as Hratio.
      assert (Hc : 0 < len (strip line) * CHAR_WIDTH_RATIO) by nra.
      rewrite pydiv_ok by lra. simpl.
      apply IH. apply Rle_min_compat_r. exact Hu.
    + now apply IH.
Qed.

(** C6, as the specification states it: for every pair of line spacings
    s1 <= s2 the size at s2 is never greater than the size at s1.  It
    fails for the two lines "A" and "B" on the default plate at spacings
    -3 and 0: the sizes are -49 and 98. *)
Lemma auto_font_sizes_not_monotone :
  -3 <= 0
  /\ auto_font_sizes (two_letters_params (-3)) = Ok [-49; -49]
  /\ auto_font_sizes (two_letters_params 0) = Ok [98; 98]
  /\ -49 < 98.
Proof.
  assert (Hne : forall s,
             non_empty_lines (two_letters_params s) = ["A"; "B"]%string)
    by (intros s; vm_compute; reflexivity).
  assert (Hpad : forall s, padding_of (two_letters_params s) = 6 + 2 + 3).
  { intros s. unfold padding_of. cbn -[gtb Rplus Rmult Rmax].
    assert (H : gtb 2 0 = true) by (apply ltb_true; lra).
    now rewrite H. }
  assert (Hw : forall s, available_w (two_letters_params s) = 158)
    by (intros s; unfold available_w; rewrite Hpad; simpl; lra).
  assert (Hh : forall s, available_h (two_letters_params s) = 98)
    by (intros s; unfold available_h; rewrite Hpad; simpl; lra).
  assert (Hstrip1 : strip "A" = "A"%string) by reflexivity.
  assert (Hstrip2 : strip "B" = "B"%string) by reflexivity.
  assert (Hat : forall s base,
             pydiv 98 (1 + (INR 2 - 1) * s) = Ok base ->
             base <= 158 / (INR 1 * CHAR_WIDTH_RATIO) ->
             auto_font_sizes (two_letters_params s) = Ok [base; base]).
  { intros s base Hbase Hcap.
    rewrite auto_font_sizes_regular;
      [| rewrite Hne; discriminate | rewrite Hw; lra | rewrite Hh; lra].
    rewrite Hne, Hw, Hh.
    change (line_spacing (two_letters_params s)) with s.
    change (List.length ["A"; "B"]%string) with 2%nat.
    rewrite Hbase. cbn [bind].
    change (_get_line_texts (two_letters_params s)) with ["A"; "B"]%string.
    cbn [cap_by_lines]. rewrite Hstrip1, Hstrip2.
    cbn [truthy negb]. unfold len.
    change (String.length "A") with 1%nat.
    change (String.length "B") with 1%nat.
    assert (Hr : INR 1 * CHAR_WIDTH_RATIO <> 0)
      by (unfold CHAR_WIDTH_RATIO; simpl; lra).
    rewrite (pydiv_ok _ _ Hr). cbn [bind].
    rewrite (Rmin_left base) by exact Hcap.
    rewrite (Rmin_left base) by exact Hcap.
    reflexivity. }
  assert (Hcap : 98 <= 158 / (INR 1 * CHAR_WIDTH_RATIO)).
  { apply le_div_iff; unfold CHAR_WIDTH_RATIO; simpl; lra. }
  split; [lra|]. split; [|split; [|lra]].
  - apply Hat; [|lra].
    rewrite pydiv_ok by (simpl; lra). f_equal. simpl. field.
  - apply Hat; [|lra].
    rewrite pydiv_ok by (simpl; lra). f_equal. simpl. field.
Qed.

(** Outside the regular case the sizes do not depend on the line
    spacing. *)
Lemma auto_font_sizes_degenerate (p : SignParams) :
  non_empty_lines p = [] \/ available_w p <= 0 \/ available_h p <= 0 ->
  exists c : R,
    forall s : R,
      auto_font_sizes (set_line_spacing p s)
      = Ok (repeat c (List.length (_get_line_texts p))).
Proof.
  intros Hdeg. unfold auto_font_sizes.
  change (_get_line_texts (set_line_spacing p _)) with (_get_line_texts p).
  unfold non_empty_lines, available_w, available_h in Hdeg.
  destruct (List.length (_get_line_texts p) =? 0)%nat eqn:Hn.
  - apply Nat.eqb_eq in Hn. rewrite Hn. exists 0. reflexivity.
  - destruct (filter (fun l => truthy (strip l)) (_get_line_texts p))
      as [|first others] eqn:Hfilter.
    + exists 10. reflexivity.
    + exists 5. intros spacing.
      change (padding_of (set_line_spacing p spacing)) with (padding_of p).
      change (width (set_line_spacing p spacing)) with (width p).
      change (height (set_line_spacing p spacing)) with (height p).
      destruct Hdeg as [Hd | [Hd | Hd]]; [discriminate | |].
      * apply leb_true in Hd. now rewrite Hd.
      * apply leb_true in Hd. rewrite Hd. now rewrite orb_true_r.
Qed.

(** C6 (amended): auto-sizing is idempotent (feeding the sizes it returned
    back into the configuration and calling it again yields the same
    sizes), and it is monotone in the line spacing over the spacings for
    which 1 + (n - 1) * lineSpacing is positive (n the number of non-empty
    lines; every non-negative spacing is such): for s1 <= s2 with
    1 + (n - 1) * s1 positive, both calls return a uniform size and the
    size at s2 is never greater than the size at s1. *)
Theorem auto_font_sizes_idempotent_monotone (p : SignParams) (s1 s2 : R) :
  s1 <= s2 ->
  (non_empty_lines p <> [] ->
   0 < 1 + (INR (List.length (non_empty_lines p)) - 1) * s1) ->
  (forall l : list R,
     auto_font_sizes p = Ok l ->
     auto_font_sizes (set_sizes p (Some l)) = Ok l)
  /\ exists u1 u2 : R,
       auto_font_sizes (set_line_spacing p s1)
       = Ok (repeat u1 (List.length (_get_line_texts p)))
       /\ auto_font_sizes (set_line_spacing p s2)
          = Ok (repeat u2 (List.length (_get_line_texts p)))
       /\ u2 <= u1.
Proof.
  intros Hs Hden. split.
  - intros l Hl. now rewrite auto_font_sizes_ignores_sizes.
  - destruct (list_eq_dec string_dec (non_empty_lines p) []) as [Hnil | Hne].
    { destruct (auto_font_sizes_degenerate p (or_introl Hnil)) as [c Hc].
      exists c, c. rewrite !Hc. repeat split; lra. }
    destruct (Rle_dec (available_w p) 0) as [Hw | Hw].
    { destruct (auto_font_sizes_degenerate p (or_intror (or_introl Hw)))
        as [c Hc].
      exists c, c. rewrite !Hc. repeat split; lra. }
    destruct (Rle_dec (available_h p) 0) as [Hh | Hh].
    { destruct (auto_font_sizes_degenerate p (or_intror (or_intror Hh)))
        as [c Hc].
      exists c, c. rewrite !Hc. repeat split; lra. }
    specialize (Hden Hne).
    assert (Hw' : 0 < available_w p) by lra.
    assert (Hh' : 0 < available_h p) by lra.
    rewrite (auto_font_sizes_regular (set_line_spacing p s1) Hne Hw' Hh').
    rewrite (auto_font_sizes_regular (set_line_spacing p s2) Hne Hw' Hh').
    change (non_empty_lines (set_line_spacing p _)) with (non_empty_lines p).
    change (available_w (set_line_spacing p _)) with (available_w p).
    change (available_h (set_line_spacing p _)) with (available_h p).
    change (_get_line_texts (set_line_spacing p _)) with (_get_line_texts p).
    change (line_spacing (set_line_spacing p s1)) with s1.
    change (line_spacing (set_line_spacing p s2)) with s2.
    set (k := INR (List.length (non_empty_lines p)) - 1) in *.
    assert (Hk : 0 <= k).
    { unfold k. destruct (non_empty_lines p) as [|l ls]; [now elim Hne|].
      change (List.length (l :: ls)) with (S (List.length ls)).
      rewrite S_INR. pose proof (pos_INR (List.length ls)). lra. }
    assert (Hden2 : 0 < 1 + k * s2) by nra.
    rewrite !pydiv_ok by lra. cbn [bind].
    assert (Hbase : available_h p / (1 + k * s2)
                    <= available_h p / (1 + k * s1)).
    { apply le_div_iff; [exact Hden|].
      set (q := available_h p / (1 + k * s2)).
      assert (Hq : 0 <= q)
        by (apply Rlt_le, Rdiv_lt_0_compat; assumption).
      assert (Hq2 : (1 + k * s2) * q = available_h p)
        by (unfold q; field; lra).
      assert (Hkq : 0 <= k * q) by (apply Rmult_le_pos; assumption).
      assert (Hgap : 0 <= k * q * (s2 - s1))
        by (apply Rmult_le_pos; [exact Hkq | lra]).
      lra. }
    destruct (cap_by_lines_mono (_get_line_texts p) (available_w p) _ _
                (Rlt_le _ _ Hw') Hbase) as (v1 & v2 & H1 & H2 & Hv).
    exists v1, v2. rewrite H1, H2. cbn [bind]. auto.
Qed.

(** On the default configuration every pair of non-negative spacings
    meets the hypotheses of [auto_font_sizes_idempotent_monotone]; here
    1.3 and 2. *)
Lemma auto_font_sizes_idempotent_monotone_default :
  (forall l : list R,
     auto_font_sizes default_params = Ok l ->
     auto_font_sizes (set_sizes default_params (Some l)) = Ok l)
  /\ exists u1 u2 : R,
       auto_font_sizes (set_line_spacing default_params 1.3)
       = Ok (repeat u1 (List.length (_get_line_texts default_params)))
       /\ auto_font_sizes (set_line_spacing default_params 2)
          = Ok (repeat u2 (List.length (_get_line_texts default_params)))
       /\ u2 <= u1.
Proof.
  apply (auto_font_sizes_idempotent_monotone default_params 1.3 2).
  - lra.
  - intros _.
    replace (non_empty_lines default_params)
      with ["Her bor"; "Ola Nordmann"]%string by (vm_compute; reflexivity).
    simpl. lra.
Defined.

(* ================================================================== *)
(** * Border frame and solid composition (C8, C9, C10, C1) *)
(* ================================================================== *)

Section GenerationProofs.

Context {cadquery : CadQuery}.

(** ** The border frame (C8) *)

Lemma border_frame_absent (p : SignParams) :
  border_style p = "none"%string \/ border_width p <= 0 ->
  _create_border_frame p = None.
Proof.
  intros Habsent. unfold _create_border_frame.
  destruct Habsent as [Hstyle | Hwidth].
  - rewrite Hstyle. reflexivity.
  - apply leb_true in Hwidth. rewrite Hwidth. now rewrite orb_true_r.
Qed.

Lemma offset_border_raises (p : SignParams) :
  let wire :=
    _create_outline_wire (width p) (height p) (corner_radius p)
      (border_style p) in
  offset2D_raises wire (- border_offset p) = true
  \/ offset2D_raises wire (- (border_offset p + border_width p)) = true ->
  offset_border p = None.
Proof.
  cbv zeta. intros Hraises. unfold offset_border.
  destruct (offset2D_raises _ (- border_offset p)); [reflexivity|].
  destruct Hraises as [Hr | Hr]; [discriminate|]. now rewrite Hr.
Qed.

(** C8: when the offset computation for a drawn border raises, the frame
    is the one of the dimension-based fallback, in every style: none when
    an outer dimension (width or height less twice the border offset) is
    not positive; the outer outline alone, with the radius reduced by the
    offset and floored at zero, when only an inner dimension (outer less
    twice the border width) is not positive; and otherwise the outer
    outline minus the inner one, whose radius is reduced further by the
    border width and floored at zero. *)
Theorem border_frame_fallback (p : SignParams) :
  let wire :=
    _create_outline_wire (width p) (height p) (corner_radius p)
      (border_style p) in
  let off := border_offset p in
  let bw := border_width p in
  let outer_w := width p - 2 * off in
  let outer_h := height p - 2 * off in
  let outer_r := Rmax 0 (corner_radius p - off) in
  let inner_w := outer_w - 2 * bw in
  let inner_h := outer_h - 2 * bw in
  let inner_r := Rmax 0 (outer_r - bw) in
  let outer_s :=
    _create_outline_solid outer_w outer_h outer_r (border_style p)
      (text_depth p) in
  let inner_s :=
    _create_outline_solid inner_w inner_h inner_r (border_style p)
      (text_depth p) in
  border_style p <> "none"%string ->
  0 < bw ->
  offset2D_raises wire (- off) = true
  \/ offset2D_raises wire (- (off + bw)) = true ->
  (_create_border_frame p = None <-> outer_w <= 0 \/ outer_h <= 0)
  /\ (0 < outer_w -> 0 < outer_h -> inner_w <= 0 \/ inner_h <= 0 ->
      _create_border_frame p = Some outer_s)
  /\ (0 < outer_w -> 0 < outer_h -> 0 < inner_w -> 0 < inner_h ->
      _create_border_frame p = Some (Cut outer_s inner_s)).
Proof.
  cbv zeta. intros Hstyle Hbw Hraises.
  assert (Hframe : _create_border_frame p = fallback_border p).
  { unfold _create_border_frame.
    apply String.eqb_neq in Hstyle. rewrite Hstyle.
    assert (H1 : leb (border_width p) 0 = false) by (apply leb_false; lra).
    rewrite H1. cbn [orb]. rewrite andb_false_r.
    now rewrite (offset_border_raises p Hraises). }
  rewrite Hframe. unfold fallback_border.
  split; [|split].
  - split.
    + intros Hnone.
      destruct (Rle_dec (width p - 2 * border_offset p) 0) as [Hw | Hw];
        [now left|].
      destruct (Rle_dec (height p - 2 * border_offset p) 0) as [Hh | Hh];
        [now right|].
      exfalso.
      assert (H1 : leb (width p - 2 * border_offset p) 0 = false)
        by (apply leb_false; lra).
      assert (H2 : leb (height p - 2 * border_offset p) 0 = false)
        by (apply leb_false; lra).
      rewrite H1, H2 in Hnone. cbn [orb] in Hnone.
      destruct (_ || _) in Hnone; discriminate.
    + intros [Hw | Hh].
      * apply leb_true in Hw. now rewrite Hw.
      * apply leb_true in Hh. rewrite Hh. now rewrite orb_true_r.
  - intros Hw Hh Hinner.
    assert (H1 : leb (width p - 2 * border_offset p) 0 = false)
      by (apply leb_false; lra).
    assert (H2 : leb (height p - 2 * border_offset p) 0 = false)
      by (apply leb_false; lra).
    rewrite H1, H2. cbn [orb].
    destruct Hinner as [Hi | Hi]; apply leb_true in Hi; rewrite Hi;
      [reflexivity | now rewrite orb_true_r].
  - intros Hw Hh Hiw Hih.
    assert (H1 : leb (width p - 2 * border_offset p) 0 = false)
      by (apply leb_false; lra).
    assert (H2 : leb (height p - 2 * border_offset p) 0 = false)
      by (apply leb_false; lra).
    assert (H3 : leb (width p - 2 * border_offset p - 2 * border_width p) 0
                 = false) by (apply leb_false; lra).
    assert (H4 : leb (height p - 2 * border_offset p - 2 * border_width p) 0
                 = false) by (apply leb_false; lra).
    rewrite H1, H2, H3, H4. reflexivity.
Qed.

(** ** No detail piece (C9) *)

Lemma non_empty_indices_nil (line_texts : list string) :
  filter (fun l => truthy (strip l)) line_texts = [] ->
  non_empty_indices line_texts = [].
Proof.
  unfold non_empty_indices. generalize 0%nat.
  induction line_texts as [|l rest IH]; intros start Hblank; [reflexivity|].
  simpl in *. destruct (truthy (strip l)); [discriminate|].
  now apply IH.
Qed.

Lemma blank_lines_no_text (p : SignParams) :
  non_empty_lines p = [] -> _create_text_solids p = Ok None.
Proof.
  intros Hblank. unfold _create_text_solids.
  now rewrite (non_empty_indices_nil _ Hblank).
Qed.

(** C9: when no text solid and no border frame are produced,
    [generate_sign] returns no detail piece and the plate itself, with no
    subtraction applied; the border frame is absent whenever the border
    style is none or the border width is not positive, and the text solid
    whenever every line is empty or blank. *)
Theorem no_detail_plain_plate (p : SignParams) :
  (_create_text_solids p = Ok None ->
   _create_border_frame p = None ->
   generate_sign p = Ok (None, plate_of p))
  /\ (border_style p = "none"%string \/ border_width p <= 0 ->
      _create_border_frame p = None)
  /\ (non_empty_lines p = [] -> _create_text_solids p = Ok None).
Proof.
  split; [|split].
  - intros Htext Hborder. unfold generate_sign.
    rewrite Htext, Hborder. reflexivity.
  - apply border_frame_absent.
  - apply blank_lines_no_text.
Qed.

(** ** Explicit font sizes (C10) *)

(** Apart from the choice of sizes, nothing reads [params.sizes]. *)
Lemma run_underlines_ignores_sizes (p : SignParams) (s : option (list R))
  (font_size y char_x : R) (runs : list (string * bool)) :
  run_underlines (set_sizes p s) font_size y char_x runs
  = run_underlines p font_size y char_x runs.
Proof.
  revert char_x. induction runs as [|[sub_text sub_ul] rest IH]; intros char_x;
    [reflexivity|].
  cbn [run_underlines]. now rewrite IH.
Qed.

Lemma place_groups_ignores_sizes (p : SignParams) (s : option (list R))
  (font_size y x : R) (groups : list Group) :
  place_groups (set_sizes p s) font_size y x groups
  = place_groups p font_size y x groups.
Proof.
  revert x. induction groups as [|g rest IH]; intros x; [reflexivity|].
  cbn [place_groups]. rewrite IH, run_underlines_ignores_sizes. reflexivity.
Qed.

Lemma styled_line_solids_ignores_sizes (p : SignParams) (s : option (list R))
  (runs : list StyledRun.t) (font_size y : R) :
  styled_line_solids (set_sizes p s) runs font_size y
  = styled_line_solids p runs font_size y.
Proof.
  unfold styled_line_solids.
  destruct (merge_runs runs) as [|g [|g' rest]]; [reflexivity | |].
  - now rewrite run_underlines_ignores_sizes.
  - now rewrite place_groups_ignores_sizes.
Qed.

Lemma text_solid_list_ignores_sizes (p : SignParams) (s : option (list R))
  (indices : list nat) (line_data : list (string * R)) (ys : list R) :
  text_solid_list (set_sizes p s) indices line_data ys
  = text_solid_list p indices line_data ys.
Proof.
  unfold text_solid_list.
  change (styled_lines (set_sizes p s)) with (styled_lines p).
  destruct (styled_lines p) as [styled|].
  - apply flat_map_ext. intros [line_idx [[text font_size] y]].
    apply styled_line_solids_ignores_sizes.
  - apply flat_map_ext. intros [[text font_size] y]. reflexivity.
Qed.

(** The text solids are determined by the chosen sizes. *)
Lemma text_solids_by_chosen_sizes (p p' : SignParams) (s : option (list R)) :
  p' = set_sizes p s ->
  chosen_sizes p' (_get_line_texts p) = chosen_sizes p (_get_line_texts p) ->
  _create_text_solids p' = _create_text_solids p.
Proof.
  intros -> Hchosen. unfold _create_text_solids.
  change (_get_line_texts (set_sizes p s)) with (_get_line_texts p).
  destruct (non_empty_indices (_get_line_texts p)); [reflexivity|].
  rewrite Hchosen.
  destruct (chosen_sizes p (_get_line_texts p)) as [chosen|e]; [|reflexivity].
  cbn [bind].
  change (line_spacing (set_sizes p s)) with (line_spacing p).
  now rewrite text_solid_list_ignores_sizes.
Qed.

Lemma generate_sign_by_text_solids (p : SignParams) (s : option (list R)) :
  _create_text_solids (set_sizes p s) = _create_text_solids p ->
  generate_sign (set_sizes p s) = generate_sign p.
Proof.
  intros Htext. unfold generate_sign. rewrite Htext. reflexivity.
Qed.

(** C10: an explicit per-line size list is used as it is when it is not
    empty and has as many entries as there are text lines; when it is
    empty or of another length it is ignored entirely: the sizes are those
    of automatic uniform sizing, and the text solids and both pieces are
    those of the configuration without explicit sizes.  The preview makes
    the same choice against its own line list. *)
Theorem explicit_sizes_need_matching_length (p : SignParams) (l : list R) :
  sizes p = Some l ->
  (l <> [] /\ List.length l = List.length (_get_line_texts p) ->
   chosen_sizes p (_get_line_texts p) = Ok l)
  /\ (l = [] \/ List.length l <> List.length (_get_line_texts p) ->
      chosen_sizes p (_get_line_texts p) = auto_font_sizes p
      /\ _create_text_solids p = _create_text_solids (set_sizes p None)
      /\ generate_sign p = generate_sign (set_sizes p None))
  /\ (l <> [] /\ List.length l = List.length (lines p) ->
      preview_sizes p = Ok l)
  /\ (l = [] \/ List.length l <> List.length (lines p) ->
      preview_sizes p = auto_font_sizes p).
Proof.
  intros Hsizes. split; [|split; [|split]].
  - intros [Hne Hlen]. unfold chosen_sizes. rewrite Hsizes.
    destruct l as [|x xs]; [now elim Hne|]. cbv beta iota.
    apply Nat.eqb_eq in Hlen. now rewrite Hlen.
  - intros Hbad.
    assert (Hauto : chosen_sizes p (_get_line_texts p) = auto_font_sizes p).
    { unfold chosen_sizes. rewrite Hsizes.
      destruct l as [|x xs]; [reflexivity|].
      destruct Hbad as [Hnil | Hlen]; [discriminate|]. cbv beta iota.
      apply Nat.eqb_neq in Hlen. now rewrite Hlen. }
    assert (Htext : _create_text_solids (set_sizes p None)
                    = _create_text_solids p).
    { apply (text_solids_by_chosen_sizes p _ None eq_refl).
      rewrite Hauto. reflexivity. }
    split; [exact Hauto|]. split; [now rewrite Htext|].
    symmetry. now apply generate_sign_by_text_solids.
  - intros [Hne Hlen]. unfold preview_sizes. rewrite Hsizes.
    destruct l as [|x xs]; [now elim Hne|]. cbv beta iota.
    apply Nat.eqb_eq in Hlen. now rewrite Hlen.
  - intros Hbad. unfold preview_sizes. rewrite Hsizes.
    destruct l as [|x xs]; [reflexivity|].
    destruct Hbad as [Hnil | Hlen]; [discriminate|]. cbv beta iota.
    apply Nat.eqb_neq in Hlen. now rewrite Hlen.
Qed.

(** ** The two pieces (C1) *)

(** [generate_sign] returns a detail piece only as the mirror image of
    the united parts, and then the base piece is the plate minus it. *)
Lemma generate_sign_pieces (p : SignParams) (black white : Solid) :
  generate_sign p = Ok (Some black, white) ->
  (exists text_solids : option Solid,
     _create_text_solids p = Ok text_solids
     /\ match text_solids, _create_border_frame p with
        | Some t, Some b => black = Mirror_YZ (Union t b)
        | Some t, None => black = Mirror_YZ t
        | None, Some b => black = Mirror_YZ b
        | None, None => False
        end)
  /\ white = Cut (plate_of p) black.
Proof.
  unfold generate_sign. fold (plate_of p).
  destruct (_create_text_solids p) as [text_solids|e]; [|discriminate].
  cbn [bind]. intros Hgen.
  assert (Hshape :
    match text_solids, _create_border_frame p with
    | Some t, Some b => black = Mirror_YZ (Union t b)
    | Some t, None => black = Mirror_YZ t
    | None, Some b => black = Mirror_YZ b
    | None, None => False
    end /\ white = Cut (plate_of p) black).
  { destruct text_solids as [t|], (_create_border_frame p) as [b|];
      cbn in Hgen; inversion Hgen; subst; split; reflexivity. }
  destruct Hshape as [Hblack Hwhite].
  split; [exists text_solids; split; [reflexivity | exact Hblack]|].
  exact Hwhite.
Qed.

(** C1 (amended): whenever [generate_sign] produces a detail piece, it
    is the mirror image of the united text and border parts (the text
    solids of [_create_text_solids] united with the frame of
    [_create_border_frame], or the one of the two that exists), the base
    piece is the plate minus the mirrored detail piece, no point is
    covered by both pieces, and the two pieces together cover exactly the
    points of the plate and of the detail piece; they cover exactly the
    plate if and only if the detail piece lies within the plate. *)
Theorem pieces_complementary (p : SignParams) (black white : Solid) :
  generate_sign p = Ok (Some black, white) ->
  (exists text_solids : option Solid,
     _create_text_solids p = Ok text_solids
     /\ match text_solids, _create_border_frame p with
        | Some t, Some b => black = Mirror_YZ (Union t b)
        | Some t, None => black = Mirror_YZ t
        | None, Some b => black = Mirror_YZ b
        | None, None => False
        end)
  /\ white = Cut (plate_of p) black
  /\ (forall q : point3, ~ (covers black q /\ covers white q))
  /\ (forall q : point3,
        covers black q \/ covers white q
        <-> covers (plate_of p) q \/ covers black q)
  /\ ((forall q : point3, covers black q -> covers (plate_of p) q)
      <-> (forall q : point3,
             covers black q \/ covers white q <-> covers (plate_of p) q)).
Proof.
  intros Hgen.
  destruct (generate_sign_pieces p black white Hgen) as [Hmirror Hwhite].
  split; [exact Hmirror|].
  assert (Hcut : forall q,
             covers white q <-> covers (plate_of p) q /\ ~ covers black q).
  { intros [[x y] z]. rewrite Hwhite. reflexivity. }
  split; [exact Hwhite|]. split; [|split; [|split]].
  - intros q [Hb Hw]. apply Hcut in Hw. tauto.
  - intros q. rewrite Hcut.
    destruct (classic (covers black q)); tauto.
  - intros Hwithin q. rewrite Hcut.
    specialize (Hwithin q). destruct (classic (covers black q)); tauto.
  - intros Hunion q Hb. apply Hunion. now left.
Qed.

(** A detail layer deeper than the plate is thick: the underline of the
    letter reaches above the plate, whatever the kernel does with the
    text. *)
Lemma underline_above_plate :
  exists black white : Solid,
    generate_sign (underlined_letter_params 1 2) = Ok (Some black, white)
    /\ covers black (0, -3.5, 1.5)
    /\ ~ covers (plate_of (underlined_letter_params 1 2)) (0, -3.5, 1.5).
Proof.
  set (p := underlined_letter_params 1 2).
  set (ul := underline_rect p 0 0 10 (10 * len "A" * CHAR_WIDTH_RATIO)).
  assert (Htext :
    _create_text_solids p
    = Ok (union_all
            ((try_text p (0, 0) "A" 10 (FontKind "Arial" "regular") ++ [ul])
             ++ [])))
    by reflexivity.
  assert (Hborder : _create_border_frame p = None) by reflexivity.
  assert (Hul : covers ul (- 0, -3.5, 1.5)).
  { unfold ul, underline_rect, UL_Y_OFFSET, CHAR_WIDTH_RATIO, len.
    cbn [covers face fst snd text_depth p underlined_letter_params
         String.length INR].
    replace (- 0 - 0) with 0 by lra.
    replace (-3.5 - (0 - 10 * 0.35)) with 0 by lra.
    rewrite Rabs_R0.
    unfold Rmax, Rmin. repeat destruct (Rle_dec _ _); lra. }
  assert (Hplate : ~ covers (plate_of p) (0, -3.5, 1.5)).
  { unfold plate_of, _create_outline_solid.
    cbn [covers thickness p underlined_letter_params].
    intros [_ [_ Hz]]. unfold Rmax in Hz. destruct (Rle_dec 0 1); lra. }
  unfold generate_sign. rewrite Htext, Hborder. cbn [bind].
  unfold try_text.
  destruct (text_raises _ _ _ _ _);
    cbn [app union_all fold_left];
    eexists; eexists; (split; [reflexivity|]);
    (split; [|exact Hplate]); cbn [covers]; [|right]; exact Hul.
Qed.

End GenerationProofs.

(** ** Instances on a concrete kernel *)

(** C1, as the specification states it: the detail piece and the base
    piece together make up exactly the plate.  It fails on a plate of
    thickness 1 with a detail layer of depth 2 (both within the ranges of
    the parameter panel): the underline of the letter covers the point
    (0, -3.5, 1.5), which lies above the plate. *)
Lemma detail_exceeds_plate :
  exists black white : Solid,
    generate_sign (cadquery := offsetless_kernel)
      (underlined_letter_params 1 2) = Ok (Some black, white)
    /\ covers (cadquery := offsetless_kernel) black (0, -3.5, 1.5)
    /\ ~ covers (cadquery := offsetless_kernel)
           (plate_of (underlined_letter_params 1 2)) (0, -3.5, 1.5)
    /\ ~ (forall q : point3,
            covers (cadquery := offsetless_kernel) black q
            \/ covers (cadquery := offsetless_kernel) white q
            <-> covers (cadquery := offsetless_kernel)
                  (plate_of (underlined_letter_params 1 2)) q).
Proof.
  destruct (underline_above_plate (cadquery := offsetless_kernel))
    as (black & white & Hgen & Hblack & Hplate).
  exists black, white. repeat split; auto.
  intros Hunion. apply Hplate. apply Hunion. now left.
Qed.

(** The underlined letter on the default plate produces a detail piece,
    to which [pieces_complementary] applies. *)
Lemma pieces_complementary_underlined :
  exists black white : Solid,
    generate_sign (cadquery := offsetless_kernel)
      (underlined_letter_params 3 0.6) = Ok (Some black, white)
    /\ (exists text_solids : Solid,
          _create_text_solids (cadquery := offsetless_kernel)
            (underlined_letter_params 3 0.6) = Ok (Some text_solids)
          /\ black = Mirror_YZ text_solids)
    /\ white = Cut (plate_of (underlined_letter_params 3 0.6)) black
    /\ (forall q : point3,
          ~ (covers (cadquery := offsetless_kernel) black q
             /\ covers (cadquery := offsetless_kernel) white q))
    /\ (forall q : point3,
          covers (cadquery := offsetless_kernel) black q
          \/ covers (cadquery := offsetless_kernel) white q
          <-> covers (cadquery := offsetless_kernel)
                (plate_of (underlined_letter_params 3 0.6)) q
              \/ covers (cadquery := offsetless_kernel) black q).
Proof.
  eexists. eexists.
  assert (Hgen :
    generate_sign (cadquery := offsetless_kernel)
      (underlined_letter_params 3 0.6)
    = Ok (Some
            (Mirror_YZ
               (Union
                  (Text (0, 0) "A" 10 0.6 (FontKind "Arial" "regular"))
                  (underline_rect (underlined_letter_params 3 0.6) 0 0 10
                     (10 * len "A" * CHAR_WIDTH_RATIO)))),
          Cut (plate_of (underlined_letter_params 3 0.6))
            (Mirror_YZ
               (Union
                  (Text (0, 0) "A" 10 0.6 (FontKind "Arial" "regular"))
                  (underline_rect (underlined_letter_params 3 0.6) 0 0 10
                     (10 * len "A" * CHAR_WIDTH_RATIO))))))
    by reflexivity.
  split; [exact Hgen|].
  pose proof (pieces_complementary (cadquery := offsetless_kernel) _ _ _ Hgen)
    as ((text_solids & Htext & Hblack) & Hwhite & Hdisjoint & Hunion & _).
  split.
  { destruct text_solids as [t|]; [|elim Hblack].
    exists t. split; [exact Htext | exact Hblack]. }
  split; [exact Hwhite|]. split; [exact Hdisjoint | exact Hunion].
Defined.

(** On a kernel whose [offset2D] raises, the default border is the
    fallback frame. *)
Lemma border_frame_fallback_default :
  _create_border_frame (cadquery := offsetless_kernel) default_params
  = Some
      (Cut
         (_create_outline_solid (180 - 2 * 6) (120 - 2 * 6)
            (Rmax 0 (12 - 6)) "concave" 0.6)
         (_create_outline_solid (180 - 2 * 6 - 2 * 2) (120 - 2 * 6 - 2 * 2)
            (Rmax 0 (Rmax 0 (12 - 6) - 2)) "concave" 0.6)).
Proof.
  refine (proj2 (proj2
            (border_frame_fallback (cadquery := offsetless_kernel)
               default_params _ _ _)) _ _ _ _);
    cbn [default_params border_style border_width border_offset width height];
    try lra.
  - discriminate.
  - left. reflexivity.
Defined.

(** The empty text box without border gives the plain plate. *)
Lemma no_detail_plain_plate_blank :
  generate_sign (cadquery := offsetless_kernel) blank_params
  = Ok (None, plate_of blank_params).
Proof.
  apply (proj1 (no_detail_plain_plate (cadquery := offsetless_kernel)
                  blank_params)); reflexivity.
Defined.

(** One explicit size for two lines is ignored. *)
Lemma explicit_sizes_mismatch_ignored :
  sizes mismatched_sizes_params = Some [10]
  /\ chosen_sizes mismatched_sizes_params
       (_get_line_texts mismatched_sizes_params)
     = auto_font_sizes mismatched_sizes_params
  /\ generate_sign (cadquery := offsetless_kernel) mismatched_sizes_params
     = generate_sign (cadquery := offsetless_kernel)
         (set_sizes mismatched_sizes_params None).
Proof.
  split; [reflexivity|].
  pose proof (explicit_sizes_need_matching_length
                (cadquery := offsetless_kernel)
                mismatched_sizes_params [10] eq_refl) as (_ & Hignored & _).
  destruct Hignored as (Hauto & _ & Hgen).
  - right. cbn. discriminate.
  - split; [exact Hauto | exact Hgen].
Defined.

(* ================================================================== *)
(** * The offset preview of the concave outline (C2, C5) *)
(* ================================================================== *)

(** ** Arcs end where they are meant to *)

(** Sine and cosine of the arctangent of a slope [y / x], for a point at
    distance [rho] from the origin. *)
Lemma cos_sin_atan_slope (x y rho : R) :
  0 < rho ->
  x <> 0 ->
  x * x + y * y = rho * rho ->
  cos (atan (y / x)) = Rabs x / rho
  /\ sin (atan (y / x)) = y / x * (Rabs x / rho).
Proof.
  intros Hrho Hx Hcircle.
  assert (Habs : 0 < Rabs x) by (apply Rabs_pos_lt; exact Hx).
  assert (Habs2 : Rabs x * Rabs x = x * x).
  { unfold Rabs. destruct (Rcase_abs x); ring. }
  assert (Hroot : sqrt (1 + (y / x)²) = rho / Rabs x).
  { apply sqrt_lem_1.
    - unfold Rsqr. nra.
    - apply Rlt_le, Rdiv_lt_0_compat; assumption.
    - unfold Rsqr.
      replace (rho / Rabs x * (rho / Rabs x))
        with (rho * rho / (Rabs x * Rabs x)) by (field; lra).
      rewrite Habs2, <- Hcircle. field. exact Hx. }
  rewrite cos_atan, sin_atan, Hroot. split; field; lra.
Qed.

(** [atan2] gives the direction of a point: scaled by the distance, its
    cosine and sine give the point back. *)
Lemma atan2_polar (x y rho : R) :
  0 < rho ->
  x * x + y * y = rho * rho ->
  rho * cos (atan2 y x) = x /\ rho * sin (atan2 y x) = y.
Proof.
  intros Hrho Hcircle. unfold atan2, gtb, geb, ltb, leb.
  destruct (Rlt_dec 0 x) as [Hpos | Hnpos].
  - destruct (cos_sin_atan_slope x y rho Hrho) as [Hc Hs];
      [lra | exact Hcircle |].
    rewrite Hc, Hs, (Rabs_right x) by lra. split; field; lra.
  - destruct (Rlt_dec x 0) as [Hneg | Hnneg].
    + destruct (cos_sin_atan_slope x y rho Hrho) as [Hc Hs];
        [lra | exact Hcircle |].
      rewrite (Rabs_left x) in Hc, Hs by lra.
      destruct (Rle_dec 0 y).
      * rewrite neg_cos, neg_sin, Hc, Hs. split; field; lra.
      * rewrite cos_minus, sin_minus, cos_PI, sin_PI, Hc, Hs.
        split; field; lra.
    + assert (Hx : x = 0) by lra. subst x.
      destruct (Rlt_dec 0 y) as [Hy | Hy].
      * rewrite cos_PI2, sin_PI2. split; nra.
      * destruct (Rlt_dec y 0) as [Hy' | Hy'].
        -- rewrite cos_neg, sin_neg, cos_PI2, sin_PI2. split; nra.
        -- nra.
Qed.

(** The last sample of an arc is the point the arc is drawn to, when that
    point lies on the circle. *)
Lemma arc_samples_end (path : QPainterPath) (cx cy R_ x1 y1 x2 y2 : R)
  (n_seg : nat) :
  0 < R_ ->
  (x2 - cx) * (x2 - cx) + (y2 - cy) * (y2 - cy) = R_ * R_ ->
  (0 < n_seg)%nat ->
  pen_position (_add_offset_arc path cx cy R_ x1 y1 x2 y2 n_seg)
  = Some (x2, y2).
Proof.
  intros HR Hcircle Hn. destruct n_seg as [|n]; [lia|].
  unfold pen_position, _add_offset_arc, arc_samples.
  rewrite seq_S, map_app, app_assoc. cbn [map]. rewrite last_last.
  change (1 + n)%nat with (S n).
  assert (Hone : INR (S n) / INR (S n) = 1).
  { field. apply not_0_INR. lia. }
  rewrite Hone.
  destruct (atan2_polar (x2 - cx) (y2 - cy) R_ HR Hcircle) as [Hc Hs].
  set (a1 := atan2 (y1 - cy) (x1 - cx)) in *.
  set (a2 := atan2 (y2 - cy) (x2 - cx)) in *.
  assert (Hangle :
    forall delta, delta = a2 - a1 \/ delta = a2 - a1 - 2 * PI ->
      cos (a1 + delta * 1) = cos a2 /\ sin (a1 + delta * 1) = sin a2).
  { intros delta [-> | ->].
    - replace (a1 + (a2 - a1) * 1) with a2 by ring. auto.
    - replace (a1 + (a2 - a1 - 2 * PI) * 1) with (a2 - 2 * PI) by ring.
      rewrite cos_minus, sin_minus, cos_2PI, sin_2PI. split; ring. }
  destruct (gtb (a2 - a1) 0).
  - destruct (Hangle (a2 - a1 - 2 * PI)) as [Hca Hsa]; [now right|].
    rewrite Hca, Hsa. f_equal. f_equal; lra.
  - destruct (Hangle (a2 - a1)) as [Hca Hsa]; [now left|].
    rewrite Hca, Hsa. f_equal. f_equal; lra.
Qed.

(** ** The regular case (C2) *)

Lemma sqrt_below (x b : R) : 0 <= x -> 0 < b -> x < b * b -> sqrt x < b.
Proof.
  intros Hx Hb Hlt. rewrite <- (sqrt_square b) by lra.
  apply sqrt_lt_1; nra.
Qed.

Lemma sqrt_above (x b : R) : 0 <= b -> b * b < x -> b < sqrt x.
Proof.
  intros Hb Hlt. rewrite <- (sqrt_square b) at 1 by lra.
  apply sqrt_lt_1; nra.
Qed.

(** Length of a horizontal and of a vertical segment. *)
Lemma dist_horizontal (a b y : R) : a <= b -> dist (a, y) (b, y) = b - a.
Proof.
  intros Hab. unfold dist. cbn [fst snd].
  replace ((b - a) * (b - a) + (y - y) * (y - y)) with ((b - a) * (b - a))
    by ring.
  apply sqrt_square. lra.
Qed.

Lemma dist_vertical (x a b : R) : a <= b -> dist (x, a) (x, b) = b - a.
Proof.
  intros Hab. unfold dist. cbn [fst snd].
  replace ((x - x) * (x - x) + (b - a) * (b - a)) with ((b - a) * (b - a))
    by ring.
  apply sqrt_square. lra.
Qed.

Lemma dist_sym (p q : point2) : dist p q = dist q p.
Proof. unfold dist. f_equal. ring. Qed.

(** C2, as the specification states it: for d < R and edges of positive
    length the offset curve has its junction points s and d away from the
    plate corners.  It fails for a 40 x 20 plate (half-extents 20 and 10)
    with radius 1 and offset 12, where R = 13 and s = 5: both edges would
    have positive length (40 - 10 and 20 - 10), but the offset is not
    below the half-height and the path is left empty. *)
Lemma concave_offset_needs_room :
  12 < 1 + 12
  /\ sqrt ((1 + 12) * (1 + 12) - 12 * 12) = 5
  /\ 0 < 2 * 20 - 2 * 5
  /\ 0 < 2 * 10 - 2 * 5
  /\ _build_offset_concave_path 20 10 1 12 16 = Ok [].
Proof.
  split; [lra|]. split; [|split; [lra|split; [lra|]]].
  - replace ((1 + 12) * (1 + 12) - 12 * 12) with (5 * 5) by lra.
    apply sqrt_square. lra.
  - unfold _build_offset_concave_path.
    assert (H1 : leb 10 12 = true) by (apply leb_true; lra).
    assert (H2 : gtb 10 12 = false) by (apply ltb_false; lra).
    rewrite H1, H2, orb_true_r, andb_false_r. reflexivity.
Qed.

(** C2 (amended): for the concave style with d < R = r + d, with
    s = sqrt(R^2 - d^2) defined, with edges of positive length (s below
    both half-extents) and with d below both half-extents, the offset
    curve is: the bottom edge between the points s inward along x and d
    inward along y of the two bottom plate corners, then for each corner
    the sampled arc about the plate corner followed by the next straight
    edge (right, top, left), ending with the arc about the bottom-left
    corner.  Each arc ends at the junction point where the next edge
    starts, d inward along one axis and s along the other of its corner,
    and each straight edge has the plate's edge length less 2s.  (Arcs
    are sampled with the default [n_arc = 16].) *)
Theorem concave_offset_junctions (hw hh r d : R) :
  let R_ := r + d in
  let s := sqrt (R_ * R_ - d * d) in
  let arc := fun (corner from to : point2) =>
    arc_samples (fst corner) (snd corner) R_
      (fst from) (snd from) (fst to) (snd to) 16 in
  d < R_ ->
  0 <= R_ * R_ - d * d ->
  s < hw ->
  s < hh ->
  d < hw ->
  d < hh ->
  _build_offset_concave_path hw hh r d 16
  = Ok ([MoveTo (- hw + s, - hh + d); LineTo (hw - s, - hh + d)]
        ++ arc (hw, - hh) (hw - s, - hh + d) (hw - d, - hh + s)
        ++ [LineTo (hw - d, hh - s)]
        ++ arc (hw, hh) (hw - d, hh - s) (hw - s, hh - d)
        ++ [LineTo (- hw + s, hh - d)]
        ++ arc (- hw, hh) (- hw + s, hh - d) (- hw + d, hh - s)
        ++ [LineTo (- hw + d, - hh + s)]
        ++ arc (- hw, - hh) (- hw + d, - hh + s) (- hw + s, - hh + d)
        ++ [CloseSubpath])
  /\ pen_position (arc (hw, - hh) (hw - s, - hh + d) (hw - d, - hh + s))
     = Some (hw - d, - hh + s)
  /\ pen_position (arc (hw, hh) (hw - d, hh - s) (hw - s, hh - d))
     = Some (hw - s, hh - d)
  /\ pen_position (arc (- hw, hh) (- hw + s, hh - d) (- hw + d, hh - s))
     = Some (- hw + d, hh - s)
  /\ pen_position (arc (- hw, - hh) (- hw + d, - hh + s) (- hw + s, - hh + d))
     = Some (- hw + s, - hh + d)
  /\ dist (- hw + s, - hh + d) (hw - s, - hh + d) = 2 * hw - 2 * s
  /\ dist (hw - d, - hh + s) (hw - d, hh - s) = 2 * hh - 2 * s
  /\ dist (hw - s, hh - d) (- hw + s, hh - d) = 2 * hw - 2 * s
  /\ dist (- hw + d, hh - s) (- hw + d, - hh + s) = 2 * hh - 2 * s.
Proof.
  cbv zeta. intros HdR Hdef Hsw Hsh Hdw Hdh.
  assert (Hn : (0 < 16)%nat) by lia.
  set (R_ := r + d) in *. set (s := sqrt (R_ * R_ - d * d)) in *.
  assert (HR : 0 < R_) by nra.
  assert (Hs : 0 <= s) by apply sqrt_pos.
  assert (Hss : s * s = R_ * R_ - d * d) by (apply sqrt_sqrt; exact Hdef).
  split.
  - unfold _build_offset_concave_path. fold R_.
    assert (H1 : leb hw d = false) by (apply leb_false; lra).
    assert (H2 : leb hh d = false) by (apply leb_false; lra).
    assert (H3 : leb R_ 0 = false) by (apply leb_false; lra).
    assert (H4 : geb d R_ = false) by (apply leb_false; lra).
    rewrite H1, H2, H3, H4. cbn [orb].
    unfold math_sqrt.
    assert (H5 : ltb (R_ * R_ - d * d) 0 = false) by (apply ltb_false; lra).
    rewrite H5. cbn [bind]. fold s.
    assert (H6 : leb hw s = false) by (apply leb_false; lra).
    assert (H7 : leb hh s = false) by (apply leb_false; lra).
    rewrite H6, H7. cbn [orb]. unfold _add_offset_arc. cbn [fst snd].
    f_equal; repeat rewrite <- app_assoc; reflexivity.
  - cbn [fst snd].
    repeat split.
    + apply (arc_samples_end [] hw (- hh) R_); [exact HR | nra | exact Hn].
    + apply (arc_samples_end [] hw hh R_); [exact HR | nra | exact Hn].
    + apply (arc_samples_end [] (- hw) hh R_); [exact HR | nra | exact Hn].
    + apply (arc_samples_end [] (- hw) (- hh) R_); [exact HR | nra | exact Hn].
    + rewrite dist_horizontal; lra.
    + rewrite dist_vertical; lra.
    + rewrite dist_sym, dist_horizontal; lra.
    + rewrite dist_sym, dist_vertical; lra.
Qed.

(** The representative case: width 180, height 120, r = 12, d = 6, where
    R = 18 and s = sqrt 288, about 16.97. *)
Lemma concave_offset_junctions_default :
  12 + 6 = 18
  /\ (12 + 6) * (12 + 6) - 6 * 6 = 288
  /\ 16.97 < sqrt 288 < 16.98
  /\ (exists path : QPainterPath,
        _build_offset_concave_path (180 / 2) (120 / 2) 12 6 16 = Ok path
        /\ hd CloseSubpath path
           = MoveTo (- (180 / 2) + sqrt 288, - (120 / 2) + 6))
  /\ dist (- (180 / 2) + sqrt 288, - (120 / 2) + 6)
          (180 / 2 - sqrt 288, - (120 / 2) + 6)
     = 180 - 2 * sqrt 288
  /\ dist (180 / 2 - 6, - (120 / 2) + sqrt 288)
          (180 / 2 - 6, 120 / 2 - sqrt 288)
     = 120 - 2 * sqrt 288.
Proof.
  assert (Hlow : 16.97 < sqrt 288) by (apply sqrt_above; lra).
  assert (Hhigh : sqrt 288 < 16.98) by (apply sqrt_below; lra).
  assert (Harg : (12 + 6) * (12 + 6) - 6 * 6 = 288) by lra.
  pose proof (concave_offset_junctions (180 / 2) (120 / 2) 12 6) as H.
  cbv zeta in H. rewrite Harg in H.
  destruct H as (Hpath & _ & _ & _ & _ & Hbottom & Hright & _ & _);
    try lra.
  split; [lra|]. split; [exact Harg|]. split; [split; assumption|].
  split; [|split].
  - eexists. split; [exact Hpath | reflexivity].
  - rewrite Hbottom. lra.
  - rewrite Hright. lra.
Defined.

(** ** The degenerate cases (C5) *)




(** When the offset leaves no room, no curve is drawn. *)
Lemma concave_offset_no_room (hw hh r d : R) (n_arc : nat) :
  hw <= d \/ hh <= d ->
  _build_offset_concave_path hw hh r d n_arc = Ok [].
Proof.
  intros Hroom. unfold _build_offset_concave_path.
  destruct Hroom as [H | H].
  - assert (H1 : leb hw d = true) by (apply leb_true; lra).
    assert (H2 : gtb hw d = false) by (apply ltb_false; lra).
    rewrite H1, H2. reflexivity.
  - assert (H1 : leb hh d = true) by (apply leb_true; lra).
    assert (H2 : gtb hh d = false) by (apply ltb_false; lra).
    rewrite H1, H2, orb_true_r, andb_false_r. reflexivity.
Qed.





(* ================================================================== *)
(** * Further properties: text layout *)
(* ================================================================== *)

Lemma line_gaps_length (line_data : list (string * R)) (ls : R) :
  List.length (line_gaps line_data ls) = Nat.pred (List.length line_data).
Proof.
  induction line_data as [|a rest IH]; [reflexivity|].
  destruct rest as [|b rest']; [reflexivity|].
  change (line_gaps (a :: b :: rest') ls)
    with ((snd a / 2 + snd b / 2) * ls :: line_gaps (b :: rest') ls).
  cbn [List.length Nat.pred] in *. now rewrite IH.
Qed.

Lemma line_gaps_nth (line_data : list (string * R)) (ls : R) (i : nat)
  (d : string * R) :
  (S i < List.length line_data)%nat ->
  nth i (line_gaps line_data ls) 0
  = (snd (nth i line_data d) / 2 + snd (nth (S i) line_data d) / 2) * ls.
Proof.
  revert i. induction line_data as [|a rest IH]; intros i Hi;
    [cbn in Hi; lia|].
  destruct rest as [|b rest']; [cbn in Hi; lia|].
  change (line_gaps (a :: b :: rest') ls)
    with ((snd a / 2 + snd b / 2) * ls :: line_gaps (b :: rest') ls).
  destruct i as [|i]; [reflexivity|].
  cbn [nth]. apply IH. cbn [List.length] in *. lia.
Qed.

Lemma stack_below_length (y : R) (gaps : list R) :
  List.length (stack_below y gaps) = List.length gaps.
Proof.
  revert y. induction gaps as [|g gaps IH]; intros y; [reflexivity|].
  cbn [stack_below List.length]. now rewrite IH.
Qed.

(** Each center lies one gap below the center before it. *)
Lemma stack_below_step (gaps : list R) (y : R) (i : nat) :
  (i < List.length gaps)%nat ->
  nth i (y :: stack_below y gaps) 0 - nth (S i) (y :: stack_below y gaps) 0
  = nth i gaps 0.
Proof.
  revert y i. induction gaps as [|g gaps IH]; intros y i Hi;
    [cbn in Hi; lia|].
  destruct i as [|i].
  - cbn. lra.
  - change (stack_below y (g :: gaps))
      with ((y - g) :: stack_below (y - g) gaps).
    change (nth (S i) (y :: (y - g) :: stack_below (y - g) gaps) 0)
      with (nth i ((y - g) :: stack_below (y - g) gaps) 0).
    change (nth (S (S i)) (y :: (y - g) :: stack_below (y - g) gaps) 0)
      with (nth (S i) ((y - g) :: stack_below (y - g) gaps) 0).
    apply IH. cbn [List.length] in Hi. lia.
Qed.

Lemma line_positions_length (line_data : list (string * R)) (ls : R) :
  List.length (_calc_line_positions line_data ls) = List.length line_data.
Proof.
  destruct line_data as [|a [|b rest]]; [reflexivity | reflexivity |].
  unfold _calc_line_positions.
  cbn [List.length]. rewrite stack_below_length, line_gaps_length.
  reflexivity.
Qed.

Lemma line_positions_step (line_data : list (string * R)) (ls : R) (i : nat)
  (d : string * R) :
  (S i < List.length line_data)%nat ->
  nth i (_calc_line_positions line_data ls) 0
  - nth (S i) (_calc_line_positions line_data ls) 0
  = (snd (nth i line_data d) / 2 + snd (nth (S i) line_data d) / 2) * ls.
Proof.
  intros Hi.
  destruct line_data as [|a [|b rest]]; [cbn in Hi; lia | cbn in Hi; lia |].
  unfold _calc_line_positions.
  rewrite stack_below_step.
  - now apply line_gaps_nth.
  - rewrite line_gaps_length. cbn [List.length Nat.pred] in *. lia.
Qed.

(** X1: [_calc_line_positions] returns one center per line, and each
    center lies below the one before it by the gap of the two lines,
    (size_i/2 + size_{i+1}/2) * line_spacing. *)
Theorem line_positions_spaced_by_gaps (line_data : list (string * R))
  (ls : R) :
  List.length (_calc_line_positions line_data ls) = List.length line_data
  /\ (forall (i : nat) (d : string * R),
        (S i < List.length line_data)%nat ->
        nth (S i) (_calc_line_positions line_data ls) 0
        = nth i (_calc_line_positions line_data ls) 0
          - (snd (nth i line_data d) / 2 + snd (nth (S i) line_data d) / 2)
            * ls).
Proof.
  split; [apply line_positions_length|].
  intros i d Hi. pose proof (line_positions_step line_data ls i d Hi). lra.
Qed.

(** X2: for positive font sizes and a positive line spacing the centers
    are strictly decreasing, top line first. *)
Theorem line_positions_decreasing (line_data : list (string * R)) (ls : R) :
  0 < ls ->
  Forall (fun d => 0 < snd d) line_data ->
  forall i : nat,
    (S i < List.length line_data)%nat ->
    nth (S i) (_calc_line_positions line_data ls) 0
    < nth i (_calc_line_positions line_data ls) 0.
Proof.
  intros Hls Hsizes i Hi.
  pose proof (line_positions_step line_data ls i (EmptyString, 1) Hi) as Hstep.
  rewrite Forall_forall in Hsizes.
  assert (H1 : 0 < snd (nth i line_data (EmptyString, 1)))
    by (apply Hsizes, nth_In; lia).
  assert (H2 : 0 < snd (nth (S i) line_data (EmptyString, 1)))
    by (apply Hsizes, nth_In; lia).
  assert (Hgap : 0 < (snd (nth i line_data (EmptyString, 1)) / 2
                      + snd (nth (S i) line_data (EmptyString, 1)) / 2) * ls)
    by (apply Rmult_lt_0_compat; lra).
  lra.
Qed.

(** Two lines of sizes 10 and 20 at the default spacing. *)
Lemma line_positions_decreasing_two_lines :
  nth 1 (_calc_line_positions [("a", 10); ("b", 20)]%string 1.3) 0
  < nth 0 (_calc_line_positions [("a", 10); ("b", 20)]%string 1.3) 0.
Proof.
  apply (line_positions_decreasing [("a", 10); ("b", 20)]%string 1.3).
  - lra.
  - repeat constructor; cbn; lra.
  - cbn. lia.
Defined.

(** The width loop keeps a positive size positive. *)
Lemma cap_by_lines_positive (lines : list string) (w u : R) :
  0 < w ->
  0 < u ->
  exists v : R, cap_by_lines lines w u = Ok v /\ 0 < v <= u.
Proof.
  intros Hw. revert u. induction lines as [|line rest IH]; intros u Hu.
  - exists u. simpl. split; [reflexivity | lra].
  - simpl. destruct (truthy (strip line)) eqn:Hline; simpl.
    + pose proof (len_truthy_pos _ Hline) as Hlen.
      pose proof char_width_ratio_pos as Hratio.
      assert (Hc : 0 < len (strip line) * CHAR_WIDTH_RATIO) by nra.
      rewrite pydiv_ok by lra. simpl.
      set (max_w := w / (len (strip line) * CHAR_WIDTH_RATIO)).
      assert (Hmax : 0 < max_w) by (apply Rdiv_lt_0_compat; assumption).
      destruct (IH (Rmin u max_w)) as (v & Hv & Hpos & Hle).
      { apply Rmin_glb_lt; assumption. }
      exists v. split; [exact Hv|]. split; [exact Hpos|].
      pose proof (Rmin_l u max_w). lra.
    + now apply IH.
Qed.

Lemma auto_font_sizes_no_lines (p : SignParams) :
  _get_line_texts p = [] -> auto_font_sizes p = Ok [].
Proof. intros Hnil. unfold auto_font_sizes. now rewrite Hnil. Qed.

Lemma auto_font_sizes_blank (p : SignParams) :
  non_empty_lines p = [] ->
  auto_font_sizes p = Ok (repeat 10 (List.length (_get_line_texts p))).
Proof.
  unfold non_empty_lines, auto_font_sizes. intros Hblank. rewrite Hblank.
  destruct (_get_line_texts p); reflexivity.
Qed.

Lemma auto_font_sizes_no_room (p : SignParams) :
  non_empty_lines p <> [] ->
  available_w p <= 0 \/ available_h p <= 0 ->
  auto_font_sizes p = Ok (repeat 5 (List.length (_get_line_texts p))).
Proof.
  unfold non_empty_lines, available_w, available_h, auto_font_sizes.
  intros Hne Hroom.
  destruct (List.length (_get_line_texts p) =? 0)%nat eqn:Hn.
  - apply Nat.eqb_eq, length_zero_iff_nil in Hn.
    rewrite Hn in Hne. now elim Hne.
  - destruct (filter _ _); [now elim Hne|].
    destruct Hroom as [Hw | Hh].
    + apply leb_true in Hw. now rewrite Hw.
    + apply leb_true in Hh. rewrite Hh. now rewrite orb_true_r.
Qed.

(** X3: the edge cases of [auto_font_sizes], whatever the line spacing:
    no lines give no sizes, lines that are all empty or blank give 10.0
    for each, and a plate without room for text (available width or
    height not positive) gives 5.0 for each. *)
Theorem auto_font_sizes_edge_cases (p : SignParams) :
  (_get_line_texts p = [] -> auto_font_sizes p = Ok [])
  /\ (non_empty_lines p = [] ->
      auto_font_sizes p
      = Ok (repeat 10 (List.length (_get_line_texts p))))
  /\ (non_empty_lines p <> [] ->
      available_w p <= 0 \/ available_h p <= 0 ->
      auto_font_sizes p
      = Ok (repeat 5 (List.length (_get_line_texts p)))).
Proof.
  split; [apply auto_font_sizes_no_lines|].
  split; [apply auto_font_sizes_blank | apply auto_font_sizes_no_room].
Qed.

Lemma auto_font_sizes_raise_inv (p : SignParams) (e : exn) :
  auto_font_sizes p = Raise e ->
  e = ZeroDivisionError
  /\ non_empty_lines p <> []
  /\ 0 < available_w p
  /\ 0 < available_h p
  /\ 1 + (INR (List.length (non_empty_lines p)) - 1) * line_spacing p = 0.
Proof.
  intros Hraise.
  destruct (list_eq_dec string_dec (non_empty_lines p) []) as [Hnil | Hne].
  { rewrite (auto_font_sizes_blank p Hnil) in Hraise. discriminate. }
  destruct (Rle_dec (available_w p) 0) as [Hw | Hw].
  { rewrite (auto_font_sizes_no_room p Hne (or_introl Hw)) in Hraise.
    discriminate. }
  destruct (Rle_dec (available_h p) 0) as [Hh | Hh].
  { rewrite (auto_font_sizes_no_room p Hne (or_intror Hh)) in Hraise.
    discriminate. }
  assert (Hw' : 0 < available_w p) by lra.
  assert (Hh' : 0 < available_h p) by lra.
  rewrite (auto_font_sizes_regular p Hne Hw' Hh') in Hraise.
  unfold pydiv in Hraise.
  destruct (Req_dec_T _ 0) as [Hzero | Hnz].
  - cbn [bind] in Hraise. inversion Hraise. auto.
  - cbn [bind] in Hraise.
    destruct (cap_by_lines_largest (_get_line_texts p) (available_w p)
                (available_h p
                 / (1 + (INR (List.length (non_empty_lines p)) - 1)
                        * line_spacing p)))
      as (u & Hu & _); [lra|].
    rewrite Hu in Hraise. discriminate.
Qed.

(** X4: [auto_font_sizes] raises in one situation only: there is a
    non-empty line, the available width and height are positive, and the
    divisor 1 + (n - 1) * line_spacing of the base size is zero (n the
    number of non-empty lines); the exception is ZeroDivisionError. *)
Theorem auto_font_sizes_raises_iff (p : SignParams) (e : exn) :
  auto_font_sizes p = Raise e
  <-> e = ZeroDivisionError
      /\ non_empty_lines p <> []
      /\ 0 < available_w p
      /\ 0 < available_h p
      /\ 1 + (INR (List.length (non_empty_lines p)) - 1) * line_spacing p = 0.
Proof.
  split; [apply auto_font_sizes_raise_inv|].
  intros (-> & Hne & Hw & Hh & Hzero).
  rewrite (auto_font_sizes_regular p Hne Hw Hh), Hzero, pydiv_zero.
  reflexivity.
Qed.

(** X5: whenever [auto_font_sizes] returns, it returns one and the same
    size for each line of the configuration, blank lines included. *)
Theorem auto_font_sizes_one_per_line (p : SignParams) (l : list R) :
  auto_font_sizes p = Ok l ->
  List.length l = List.length (_get_line_texts p)
  /\ exists uniform : R,
       l = repeat uniform (List.length (_get_line_texts p))
       /\ Forall (fun size => size = uniform) l.
Proof.
  intros Hl. destruct (auto_font_sizes_uniform p l Hl) as [u Hu].
  split; [rewrite Hu; apply repeat_length|].
  exists u. split; [exact Hu|].
  rewrite Hu. apply Forall_forall. intros x Hx.
  now apply repeat_spec in Hx.
Qed.

(** The blank configuration of the panel: one size for its one line. *)
Lemma auto_font_sizes_one_per_line_blank :
  List.length [10] = List.length (_get_line_texts blank_params)
  /\ exists uniform : R,
       [10] = repeat uniform (List.length (_get_line_texts blank_params))
       /\ Forall (fun size => size = uniform) [10].
Proof.
  apply (auto_font_sizes_one_per_line blank_params [10]). reflexivity.
Defined.

(** X6: with a non-empty line, room for text and a non-negative line
    spacing, [auto_font_sizes] returns a positive size that does not
    exceed the available height. *)
Theorem auto_font_sizes_positive (p : SignParams) :
  non_empty_lines p <> [] ->
  0 < available_w p ->
  0 < available_h p ->
  0 <= line_spacing p ->
  exists uniform : R,
    auto_font_sizes p
    = Ok (repeat uniform (List.length (_get_line_texts p)))
    /\ 0 < uniform <= available_h p.
Proof.
  intros Hne Hw Hh Hls.
  rewrite (auto_font_sizes_regular p Hne Hw Hh).
  set (k := INR (List.length (non_empty_lines p)) - 1).
  assert (Hk : 0 <= k).
  { unfold k. destruct (non_empty_lines p) as [|l ls]; [now elim Hne|].
    change (List.length (l :: ls)) with (S (List.length ls)).
    rewrite S_INR. pose proof (pos_INR (List.length ls)). lra. }
  assert (Hden : 1 <= 1 + k * line_spacing p)
    by (pose proof (Rmult_le_pos _ _ Hk Hls); lra).
  rewrite pydiv_ok by lra. cbn [bind].
  set (base := available_h p / (1 + k * line_spacing p)).
  assert (Hbase : 0 < base) by (apply Rdiv_lt_0_compat; lra).
  assert (Hbase_le : base <= available_h p).
  { assert (Hmul : base * (1 + k * line_spacing p) = available_h p)
      by (unfold base; field; lra).
    assert (Hslack : 0 <= base * (k * line_spacing p))
      by (apply Rmult_le_pos; [lra | now apply Rmult_le_pos]).
    lra. }
  destruct (cap_by_lines_positive (_get_line_texts p) (available_w p) base
              Hw Hbase) as (v & Hv & Hpos & Hle).
  exists v. rewrite Hv. cbn [bind]. split; [reflexivity | lra].
Qed.

(** The default configuration. *)
Lemma auto_font_sizes_positive_default :
  exists uniform : R,
    auto_font_sizes default_params = Ok [uniform; uniform]
    /\ 0 < uniform <= available_h default_params.
Proof.
  assert (Hpad : padding_of default_params = 6 + 2 + 3).
  { unfold padding_of. cbn -[gtb Rplus Rmult Rmax].
    assert (H : gtb 2 0 = true) by (apply ltb_true; lra).
    now rewrite H. }
  apply (auto_font_sizes_positive default_params).
  - cbv; discriminate.
  - unfold available_w. rewrite Hpad. simpl. lra.
  - unfold available_h. rewrite Hpad. simpl. lra.
  - simpl. lra.
Defined.

(* ================================================================== *)
(** * Further properties: style groups *)
(* ================================================================== *)

Lemma string_append_nil_r (a : string) : (a ++ "")%string = a.
Proof. induction a as [|c a IH]; [reflexivity|]. cbn. now rewrite IH. Qed.

Lemma string_append_assoc (a b c : string) :
  ((a ++ b) ++ c)%string = (a ++ (b ++ c))%string.
Proof. induction a as [|x a IH]; [reflexivity|]. cbn. now rewrite IH. Qed.

Lemma string_length_append (a b : string) :
  String.length (a ++ b) = (String.length a + String.length b)%nat.
Proof. induction a as [|x a IH]; [reflexivity|]. cbn. now rewrite IH. Qed.

Lemma join_app (xs ys : list string) :
  join (xs ++ ys) = (join xs ++ join ys)%string.
Proof.
  induction xs as [|x xs IH]; [reflexivity|].
  cbn [app]. unfold join in *. cbn [fold_right].
  now rewrite IH, string_append_assoc.
Qed.

Lemma join_cons (x : string) (xs : list string) :
  join (x :: xs) = (x ++ join xs)%string.
Proof. reflexivity. Qed.

Lemma join_singleton (x : string) : join [x] = x.
Proof. unfold join. cbn. apply string_append_nil_r. Qed.

Lemma truthy_false_empty (t : string) : truthy t = false -> t = EmptyString.
Proof. destruct t; [reflexivity | discriminate]. Qed.

Lemma truthy_append_l (a b : string) :
  truthy a = true -> truthy (a ++ b) = true.
Proof. destruct a; [discriminate | reflexivity]. Qed.

(** The step of the merging loop, as a function of the run. *)
Definition merge_step (groups : list Group) (run : StyledRun.t)
  : list Group :=
  if negb (truthy (StyledRun.text run)) then groups else add_run groups run.

Lemma merge_runs_fold (runs : list StyledRun.t) :
  merge_runs runs = fold_left merge_step runs [].
Proof. reflexivity. Qed.

Lemma add_run_cons2 (g g' : Group) (rest : list Group) (run : StyledRun.t) :
  add_run (g :: g' :: rest) run = g :: add_run (g' :: rest) run.
Proof. reflexivity. Qed.

Lemma add_run_text (groups : list Group) (run : StyledRun.t) :
  join (map g_text (add_run groups run))
  = (join (map g_text groups) ++ StyledRun.text run)%string.
Proof.
  induction groups as [|g rest IH].
  - cbn [add_run map new_group g_text]. rewrite join_singleton. reflexivity.
  - destruct rest as [|g' rest'].
    + cbn [add_run].
      destruct (_ && _); cbn [map extend_group new_group g_text].
      * now rewrite !join_singleton.
      * rewrite (join_cons (g_text g) [StyledRun.text run]).
        now rewrite !join_singleton.
    + rewrite add_run_cons2. cbn [map] in *.
      rewrite join_cons, IH, (join_cons (g_text g)).
      now rewrite string_append_assoc.
Qed.

Lemma merge_step_text (groups : list Group) (run : StyledRun.t) :
  join (map g_text (merge_step groups run))
  = (join (map g_text groups) ++ StyledRun.text run)%string.
Proof.
  unfold merge_step. destruct (truthy (StyledRun.text run)) eqn:Htext.
  - cbn [negb]. apply add_run_text.
  - cbn [negb]. rewrite (truthy_false_empty _ Htext).
    now rewrite string_append_nil_r.
Qed.

Lemma fold_merge_text (runs : list StyledRun.t) (groups : list Group) :
  join (map g_text (fold_left merge_step runs groups))
  = (join (map g_text groups) ++ join (map StyledRun.text runs))%string.
Proof.
  revert groups. induction runs as [|run rest IH]; intros groups.
  - cbn. now rewrite string_append_nil_r.
  - cbn [fold_left map]. rewrite IH, merge_step_text, join_cons.
    now rewrite string_append_assoc.
Qed.

(** X7: merging runs into style groups loses no text: the groups' texts,
    in order, read as the line's runs do, which is the line's plain text. *)
Theorem merge_runs_keeps_text (runs : list StyledRun.t) :
  join (map g_text (merge_runs runs)) = join (map StyledRun.text runs)
  /\ (forall (p : SignParams) (styled : list (list StyledRun.t)) (i : nat),
        styled_lines p = Some styled ->
        (i < List.length styled)%nat ->
        join (map g_text (merge_runs (nth i styled [])))
        = nth i (_get_line_texts p) EmptyString).
Proof.
  split.
  - rewrite merge_runs_fold, fold_merge_text. reflexivity.
  - intros p styled i Hstyled Hi.
    rewrite merge_runs_fold, fold_merge_text. cbn [map join fold_right].
    unfold _get_line_texts. rewrite Hstyled.
    change EmptyString with ((fun runs => join (map StyledRun.text runs)) [])
      at 2.
    rewrite map_nth. reflexivity.
Qed.

Lemma add_run_head (g : Group) (rest : list Group) (run : StyledRun.t) :
  exists (h : Group) (t : list Group),
    add_run (g :: rest) run = h :: t /\ group_style h = group_style g.
Proof.
  destruct rest as [|g' rest'].
  - cbn [add_run]. destruct (_ && _); eauto.
  - rewrite add_run_cons2. eauto.
Qed.

Lemma add_run_adjacent (groups : list Group) (run : StyledRun.t) :
  adjacent_styles_differ groups ->
  adjacent_styles_differ (add_run groups run).
Proof.
  induction groups as [|g rest IH]; intros Hadj; [exact I|].
  destruct rest as [|g' rest'].
  - cbn [add_run].
    destruct (Bool.eqb (g_bold g) (StyledRun.bold run)) eqn:Hb;
      destruct (Bool.eqb (g_italic g) (StyledRun.italic run)) eqn:Hi;
      cbn [andb adjacent_styles_differ]; try exact I;
      (split; [|exact I]); unfold group_style, new_group; cbn;
      intros Heq; inversion Heq as [[H0 H1]];
      rewrite H0 in Hb; rewrite H1 in Hi;
      rewrite Bool.eqb_reflx in Hb, Hi; discriminate.
  - rewrite add_run_cons2.
    destruct Hadj as [Hdiff Hrest].
    destruct (add_run_head g' rest' run) as (h & t & Heq & Hstyle).
    specialize (IH Hrest). rewrite Heq in *.
    split; [now rewrite Hstyle | exact IH].
Qed.

Lemma new_group_well_formed (run : StyledRun.t) :
  truthy (StyledRun.text run) = true -> group_well_formed (new_group run).
Proof.
  intros Htext. unfold group_well_formed, new_group. cbn.
  split; [discriminate|]. split; [now repeat constructor|].
  now rewrite string_append_nil_r.
Qed.

Lemma extend_group_well_formed (g : Group) (run : StyledRun.t) :
  truthy (StyledRun.text run) = true ->
  group_well_formed g ->
  group_well_formed (extend_group g run).
Proof.
  intros Htext (Hne & Hall & Hjoin). unfold group_well_formed, extend_group.
  cbn [g_runs g_text]. split; [|split].
  - destruct (g_runs g); discriminate.
  - apply Forall_app. split; [exact Hall | now repeat constructor].
  - rewrite map_app, join_app, Hjoin. cbn [map fst].
    now rewrite join_singleton.
Qed.

Lemma add_run_well_formed (groups : list Group) (run : StyledRun.t) :
  truthy (StyledRun.text run) = true ->
  Forall group_well_formed groups ->
  Forall group_well_formed (add_run groups run).
Proof.
  intros Htext. induction groups as [|g rest IH]; intros Hall.
  - cbn. constructor; [now apply new_group_well_formed | constructor].
  - inversion Hall as [|? ? Hg Hrest]; subst.
    destruct rest as [|g' rest'].
    + cbn [add_run]. destruct (_ && _).
      * constructor; [now apply extend_group_well_formed | constructor].
      * constructor; [exact Hg|].
        constructor; [now apply new_group_well_formed | constructor].
    + rewrite add_run_cons2. constructor; [exact Hg | now apply IH].
Qed.

Lemma fold_merge_invariant (runs : list StyledRun.t) (groups : list Group) :
  Forall group_well_formed groups ->
  adjacent_styles_differ groups ->
  Forall group_well_formed (fold_left merge_step runs groups)
  /\ adjacent_styles_differ (fold_left merge_step runs groups).
Proof.
  revert groups. induction runs as [|run rest IH]; intros groups Hwf Hadj;
    [now split|].
  cbn [fold_left]. apply IH; unfold merge_step;
    destruct (truthy (StyledRun.text run)) eqn:Htext; cbn [negb]; auto.
  - now apply add_run_well_formed.
  - now apply add_run_adjacent.
Qed.

Lemma well_formed_has_text (g : Group) :
  group_well_formed g -> truthy (g_text g) = true.
Proof.
  intros (Hne & Hall & Hjoin). rewrite Hjoin.
  destruct (g_runs g) as [|[t u] rest]; [now elim Hne|].
  inversion Hall as [|? ? Ht _]; subst. cbn [map fst] in *.
  rewrite join_cons. now apply truthy_append_l.
Qed.

(** X8: the groups [_create_text_solids] merges a line's runs into are
    well formed: each holds at least one run, only runs with text, and as
    its merged text the texts of its runs in order (so no group is empty);
    and consecutive groups never share their (bold, italic) pair. *)
Theorem merge_runs_groups (runs : list StyledRun.t) :
  Forall group_well_formed (merge_runs runs)
  /\ Forall (fun g => truthy (g_text g) = true) (merge_runs runs)
  /\ adjacent_styles_differ (merge_runs runs).
Proof.
  rewrite merge_runs_fold.
  destruct (fold_merge_invariant runs [] (Forall_nil _) I) as [Hwf Hadj].
  split; [exact Hwf|]. split; [|exact Hadj].
  eapply Forall_impl; [|exact Hwf]. apply well_formed_has_text.
Qed.

Lemma fold_merge_one_style (runs : list StyledRun.t) (g : Group) :
  Forall (fun r => truthy (StyledRun.text r) = true ->
                   (StyledRun.bold r, StyledRun.italic r) = group_style g)
         runs ->
  fold_left merge_step runs [g]
  = [mkGroup (g_text g ++ join (map StyledRun.text runs))
       (g_bold g) (g_italic g)
       (g_runs g
        ++ map (fun r => (StyledRun.text r, StyledRun.underline r))
             (filter (fun r => truthy (StyledRun.text r)) runs))].
Proof.
  revert g. induction runs as [|run rest IH]; intros g Hall.
  - cbn. rewrite string_append_nil_r, app_nil_r. now destruct g.
  - inversion Hall as [|? ? Hrun Hrest]; subst.
    cbn [fold_left map filter]. unfold merge_step at 2.
    destruct (truthy (StyledRun.text run)) eqn:Htext; cbn [negb].
    + specialize (Hrun eq_refl). unfold group_style in Hrun.
      inversion Hrun as [[Hb Hi]]. cbn [add_run].
      rewrite Hb, Hi, !Bool.eqb_reflx. cbn [andb].
      rewrite IH.
      * cbn [extend_group g_text g_bold g_italic g_runs map].
        rewrite join_cons, string_append_assoc, <- app_assoc.
        reflexivity.
      * eapply Forall_impl; [|exact Hrest]. intros r Hr Ht.
        rewrite (Hr Ht). reflexivity.
    + rewrite IH by exact Hrest.
      rewrite join_cons, (truthy_false_empty _ Htext). reflexivity.
Qed.

Lemma merge_runs_one_style (runs : list StyledRun.t) (b i : bool) :
  Forall (fun r => truthy (StyledRun.text r) = true ->
                   (StyledRun.bold r, StyledRun.italic r) = (b, i)) runs ->
  Exists (fun r => truthy (StyledRun.text r) = true) runs ->
  merge_runs runs
  = [mkGroup (join (map StyledRun.text runs)) b i
       (map (fun r => (StyledRun.text r, StyledRun.underline r))
          (filter (fun r => truthy (StyledRun.text r)) runs))].
Proof.
  rewrite merge_runs_fold.
  induction runs as [|run rest IH]; intros Hall Hsome;
    [inversion Hsome|].
  inversion Hall as [|? ? Hrun Hrest]; subst.
  cbn [fold_left map filter]. unfold merge_step at 2.
  destruct (truthy (StyledRun.text run)) eqn:Htext; cbn [negb].
  - first [specialize (Hrun Htext) | specialize (Hrun eq_refl)].
    inversion Hrun as [[Hb Hi]].
    cbn [add_run]. rewrite fold_merge_one_style.
    + cbn [new_group g_text g_bold g_italic g_runs app].
      now rewrite join_cons, Hb, Hi.
    + eapply Forall_impl; [|exact Hrest]. intros r Hr Ht.
      rewrite (Hr Ht). unfold group_style, new_group. cbn.
      now rewrite Hb, Hi.
  - inversion Hsome as [? ? Hhead | ? ? Htail]; subst;
      [rewrite Hhead in Htext; discriminate|].
    rewrite (IH Hrest Htail), join_cons, (truthy_false_empty _ Htext).
    reflexivity.
Qed.

(* ================================================================== *)
(** * Further properties: the solids of a text line *)
(* ================================================================== *)

Section LineSolids.

Context {cadquery : CadQuery}.

(** X9: a styled line whose runs with text all share one (bold, italic)
    pair is rendered as one text holding the whole line, centered on
    x = 0, followed by the underlines of its runs laid out from minus
    half the line's estimated width. *)
Theorem one_style_line_centered (p : SignParams) (runs : list StyledRun.t)
  (b i : bool) (font_size y : R) :
  Forall (fun r => truthy (StyledRun.text r) = true ->
                   (StyledRun.bold r, StyledRun.italic r) = (b, i)) runs ->
  Exists (fun r => truthy (StyledRun.text r) = true) runs ->
  styled_line_solids p runs font_size y
  = try_text p (0, y) (join (map StyledRun.text runs)) font_size
      (_text_kwargs_for_style (font p) b i)
    ++ run_underlines p font_size y
         (- (len (join (map StyledRun.text runs)) * CHAR_WIDTH_RATIO
             * font_size) / 2)
         (map (fun r => (StyledRun.text r, StyledRun.underline r))
            (filter (fun r => truthy (StyledRun.text r)) runs)).
Proof.
  intros Hstyle Htext. unfold styled_line_solids.
  rewrite (merge_runs_one_style runs b i Hstyle Htext). reflexivity.
Qed.

Lemma try_text_within (p : SignParams) (cx y font_size lo hi : R)
  (txt : string) (kwargs : FontSpec) :
  Forall (line_solid_within p font_size y lo hi)
    (try_text p (cx, y) txt font_size kwargs).
Proof.
  unfold try_text. destruct (text_raises _ _ _ _ _); constructor; [|constructor].
  left. eauto.
Qed.

Lemma line_solid_within_widen (p : SignParams) (font_size y lo hi lo' hi' : R)
  (solid : Solid) :
  lo' <= lo -> hi <= hi' ->
  line_solid_within p font_size y lo hi solid ->
  line_solid_within p font_size y lo' hi' solid.
Proof.
  intros Hlo Hhi [Htext | (cx & w & Heq & Hl & Hr)]; [now left|].
  right. exists cx, w. repeat split; [exact Heq | lra | lra].
Qed.

(** The underlines of consecutive runs tile the span of the runs. *)
Lemma run_underlines_within (p : SignParams) (font_size y char_x : R)
  (runs : list (string * bool)) :
  0 <= font_size ->
  Forall
    (line_solid_within p font_size y char_x
       (char_x + len (join (map fst runs)) * CHAR_WIDTH_RATIO * font_size))
    (run_underlines p font_size y char_x runs).
Proof.
  intros Hfs. revert char_x.
  induction runs as [|[sub_text sub_ul] rest IH]; intros char_x;
    [constructor|].
  cbn [run_underlines map fst]. rewrite join_cons.
  unfold len in *. rewrite string_length_append, plus_INR.
  set (sub_w := INR (String.length sub_text) * CHAR_WIDTH_RATIO * font_size).
  set (rest_w := INR (String.length (join (map fst rest)))
                 * CHAR_WIDTH_RATIO * font_size).
  assert (Hsub : 0 <= sub_w).
  { unfold sub_w. pose proof (pos_INR (String.length sub_text)).
    pose proof char_width_ratio_pos.
    apply Rmult_le_pos; [apply Rmult_le_pos; lra | exact Hfs]. }
  assert (Hrest : 0 <= rest_w).
  { unfold rest_w.
    pose proof (pos_INR (String.length (join (map fst rest)))).
    pose proof char_width_ratio_pos.
    apply Rmult_le_pos; [apply Rmult_le_pos; lra | exact Hfs]. }
  replace ((INR (String.length sub_text)
            + INR (String.length (join (map fst rest))))
           * CHAR_WIDTH_RATIO * font_size)
    with (sub_w + rest_w) by (unfold sub_w, rest_w; ring).
  apply Forall_app. split.
  - destruct sub_ul; constructor; [|constructor].
    right. exists (char_x + sub_w / 2), sub_w.
    split; [reflexivity|]. split; lra.
  - eapply Forall_impl; [|apply (IH (char_x + sub_w))].
    intros solid. apply line_solid_within_widen; fold rest_w; lra.
Qed.

Lemma place_groups_within (p : SignParams) (font_size y x : R)
  (groups : list Group) :
  0 <= font_size ->
  Forall group_well_formed groups ->
  Forall
    (line_solid_within p font_size y x
       (x + len (join (map g_text groups)) * CHAR_WIDTH_RATIO * font_size))
    (place_groups p font_size y x groups).
Proof.
  intros Hfs. revert x. induction groups as [|g rest IH]; intros x Hwf;
    [constructor|].
  inversion Hwf as [|? ? Hg Hrest]; subst.
  cbn [place_groups map]. rewrite join_cons.
  unfold len in *. rewrite string_length_append, plus_INR.
  set (g_w := INR (String.length (g_text g)) * CHAR_WIDTH_RATIO * font_size).
  set (rest_w := INR (String.length (join (map g_text rest)))
                 * CHAR_WIDTH_RATIO * font_size).
  assert (Hgw : 0 <= g_w).
  { unfold g_w. pose proof (pos_INR (String.length (g_text g))).
    pose proof char_width_ratio_pos.
    apply Rmult_le_pos; [apply Rmult_le_pos; lra | exact Hfs]. }
  assert (Hrw : 0 <= rest_w).
  { unfold rest_w.
    pose proof (pos_INR (String.length (join (map g_text rest)))).
    pose proof char_width_ratio_pos.
    apply Rmult_le_pos; [apply Rmult_le_pos; lra | exact Hfs]. }
  replace ((INR (String.length (g_text g))
            + INR (String.length (join (map g_text rest))))
           * CHAR_WIDTH_RATIO * font_size)
    with (g_w + rest_w) by (unfold g_w, rest_w; ring).
  apply Forall_app. split; [apply try_text_within|].
  apply Forall_app. split.
  - pose proof (run_underlines_within p font_size y x (g_runs g) Hfs) as Hul.
    destruct Hg as (_ & _ & Hjoin). rewrite <- Hjoin in Hul.
    unfold len in Hul. fold g_w in Hul.
    eapply Forall_impl; [|exact Hul].
    intros solid. apply line_solid_within_widen; lra.
  - eapply Forall_impl; [|apply (IH (x + g_w) Hrest)].
    intros solid. apply line_solid_within_widen; fold rest_w; lra.
Qed.

(** X10: for a non-negative font size, every solid of a styled line is a
    text at the line's height or an underline rectangle 0.35 * font_size
    below it, of thickness max(0.4, 0.06 * font_size) and the text depth,
    and no underline reaches beyond the line's estimated width
    (character count * 0.55 * font_size) centered on x = 0. *)
Theorem styled_line_within_width (p : SignParams) (runs : list StyledRun.t)
  (font_size y : R) :
  0 <= font_size ->
  let half :=
    len (join (map StyledRun.text runs)) * CHAR_WIDTH_RATIO * font_size / 2 in
  Forall (line_solid_within p font_size y (- half) half)
    (styled_line_solids p runs font_size y).
Proof.
  intros Hfs. cbv zeta.
  pose proof (fold_merge_text runs []) as Htext.
  rewrite <- merge_runs_fold in Htext. cbn [map join fold_right] in Htext.
  change (fold_right append EmptyString (map StyledRun.text runs))
    with (join (map StyledRun.text runs)) in Htext.
  cbn [append] in Htext.
  destruct (fold_merge_invariant runs [] (Forall_nil _) I) as [Hwf _].
  rewrite <- merge_runs_fold in Hwf.
  unfold styled_line_solids. rewrite <- Htext.
  destruct (merge_runs runs) as [|g [|g' rest]] eqn:Hgroups; [constructor | |].
  - inversion Hwf as [|? ? Hg _]; subst. destruct Hg as (_ & _ & Hjoin).
    cbn [map]. rewrite join_singleton.
    set (full_w := len (g_text g) * CHAR_WIDTH_RATIO * font_size).
    apply Forall_app. split; [apply try_text_within|].
    pose proof (run_underlines_within p font_size y (- full_w / 2)
                  (g_runs g) Hfs) as Hul.
    rewrite <- Hjoin in Hul. fold full_w in Hul.
    eapply Forall_impl; [|exact Hul].
    intros solid. apply line_solid_within_widen; lra.
  - set (groups := g :: g' :: rest) in *.
    set (total_w := len (join (map g_text groups)) * CHAR_WIDTH_RATIO
                    * font_size).
    pose proof (place_groups_within p font_size y (- total_w / 2) groups
                  Hfs Hwf) as Hplaced.
    fold total_w in Hplaced.
    eapply Forall_impl; [|exact Hplaced].
    intros solid. apply line_solid_within_widen; lra.
Qed.

End LineSolids.

(** The runs "Ola " (underlined) and "Nordmann", both plain. *)
Lemma one_style_line_centered_two_runs :
  styled_line_solids (cadquery := offsetless_kernel) default_params
    [StyledRun.mk "Ola " false false true;
     StyledRun.mk "Nordmann" false false false] 10 0
  = [Text (0, 0) "Ola Nordmann" 10 0.6 (FontKind "Arial" "regular");
     underline_rect default_params
       (- (len "Ola Nordmann" * CHAR_WIDTH_RATIO * 10) / 2
        + len "Ola " * CHAR_WIDTH_RATIO * 10 / 2)
       0 10 (len "Ola " * CHAR_WIDTH_RATIO * 10)].
Proof.
  rewrite (one_style_line_centered (cadquery := offsetless_kernel)
             default_params _ false false 10 0).
  - reflexivity.
  - repeat constructor.
  - constructor. reflexivity.
Defined.

(** The same line at font size 10. *)
Lemma styled_line_within_width_two_runs :
  Forall
    (line_solid_within default_params 10 0
       (- (len "Ola Nordmann" * CHAR_WIDTH_RATIO * 10 / 2))
       (len "Ola Nordmann" * CHAR_WIDTH_RATIO * 10 / 2))
    (styled_line_solids (cadquery := offsetless_kernel) default_params
       [StyledRun.mk "Ola " false false true;
        StyledRun.mk "Nordmann" true false false] 10 0).
Proof.
  apply (styled_line_within_width (cadquery := offsetless_kernel)
           default_params
           [StyledRun.mk "Ola " false false true;
            StyledRun.mk "Nordmann" true false false] 10 0).
  lra.
Defined.

(* ================================================================== *)
(** * Further properties: the two pieces *)
(* ================================================================== *)

Section PiecesProofs.

Context {cadquery : CadQuery}.

Lemma non_negative_spacing_divisor (p : SignParams) :
  0 <= line_spacing p ->
  non_empty_lines p <> [] ->
  1 + (INR (List.length (non_empty_lines p)) - 1) * line_spacing p <> 0.
Proof.
  intros Hls Hne. destruct (non_empty_lines p) as [|l ls].
  - now elim Hne.
  - change (List.length (l :: ls)) with (S (List.length ls)).
    rewrite S_INR. pose proof (pos_INR (List.length ls)) as Hn.
    pose proof (Rmult_le_pos _ _ Hn Hls). lra.
Qed.

Lemma chosen_sizes_returns (p : SignParams) :
  (non_empty_lines p <> [] ->
   1 + (INR (List.length (non_empty_lines p)) - 1) * line_spacing p <> 0) ->
  exists l : list R, chosen_sizes p (_get_line_texts p) = Ok l.
Proof.
  intros Hden.
  assert (Hauto : exists l, auto_font_sizes p = Ok l).
  { destruct (auto_font_sizes p) as [l|e] eqn:Hauto; [eauto|].
    apply auto_font_sizes_raise_inv in Hauto.
    destruct Hauto as (_ & Hne & _ & _ & Hzero). now elim (Hden Hne). }
  unfold chosen_sizes.
  destruct (sizes p) as [[|x xs]|]; try exact Hauto.
  cbv beta iota. destruct (_ =? _)%nat; [eauto | exact Hauto].
Qed.

(** The shape of what [generate_sign] returns, given the text solids. *)
Lemma generate_sign_of_parts (p : SignParams) (text_solids : option Solid) :
  _create_text_solids p = Ok text_solids ->
  generate_sign p
  = match text_solids, _create_border_frame p with
    | None, None => Ok (None, plate_of p)
    | Some t, None =>
        Ok (Some (Mirror_YZ t), Cut (plate_of p) (Mirror_YZ t))
    | None, Some b =>
        Ok (Some (Mirror_YZ b), Cut (plate_of p) (Mirror_YZ b))
    | Some t, Some b =>
        Ok (Some (Mirror_YZ (Union t b)),
            Cut (plate_of p) (Mirror_YZ (Union t b)))
    end.
Proof.
  intros Htext. unfold generate_sign. rewrite Htext. cbn [bind].
  destruct text_solids, (_create_border_frame p); reflexivity.
Qed.

(** X12: the detail piece is exactly the mirror image of the text solids
    and the border frame: it covers a point if and only if the text
    solids or the border frame cover the point with x negated; the base
    piece covers the points of the plate that the detail piece does not. *)
Theorem detail_is_mirrored_parts (p : SignParams) (black white : Solid) :
  generate_sign p = Ok (Some black, white) ->
  forall x y z : R,
    (covers black (x, y, z)
     <-> (exists t : Solid,
            _create_text_solids p = Ok (Some t) /\ covers t (- x, y, z))
         \/ (exists b : Solid,
               _create_border_frame p = Some b /\ covers b (- x, y, z)))
    /\ (covers white (x, y, z)
        <-> covers (plate_of p) (x, y, z) /\ ~ covers black (x, y, z)).
Proof.
  intros Hgen x y z.
  destruct (_create_text_solids p) as [t|e] eqn:Htext.
  - rewrite (generate_sign_of_parts p t Htext) in Hgen.
    destruct t as [t|], (_create_border_frame p) as [b|];
      inversion Hgen; subst; cbn [covers]; (split; [|reflexivity]).
    + split.
      * intros [Ht | Hb]; [left | right]; eauto.
      * intros [(t' & Heq & Ht) | (b' & Heq & Hb)];
          inversion Heq; subst; auto.
    + split.
      * intros Ht. left. eauto.
      * intros [(t' & Heq & Ht) | (b' & Heq & Hb)];
          [inversion Heq; subst; auto | discriminate].
    + split.
      * intros Hb. right. eauto.
      * intros [(t' & Heq & Ht) | (b' & Heq & Hb)];
          [discriminate | inversion Heq; subst; auto].
  - unfold generate_sign in Hgen. rewrite Htext in Hgen. discriminate.
Qed.

End PiecesProofs.

Lemma non_empty_indices_in_range (line_texts : list string) (i : nat) :
  In i (non_empty_indices line_texts) ->
  (i < List.length line_texts)%nat.
Proof.
  unfold non_empty_indices. intros Hin.
  apply in_map_iff in Hin. destruct Hin as ([j l] & Hj & Hin).
  cbn [fst] in Hj. subst j.
  apply filter_In in Hin. destruct Hin as [Hin _].
  apply in_combine_l in Hin. apply in_seq in Hin. lia.
Qed.

Lemma chosen_sizes_length (p : SignParams) (chosen : list R) :
  chosen_sizes p (_get_line_texts p) = Ok chosen ->
  List.length chosen = List.length (_get_line_texts p).
Proof.
  unfold chosen_sizes.
  assert (Hauto : auto_font_sizes p = Ok chosen ->
                  List.length chosen = List.length (_get_line_texts p)).
  { intros Hl. destruct (auto_font_sizes_uniform p chosen Hl) as [u ->].
    apply repeat_length. }
  destruct (sizes p) as [[|x xs]|]; try exact Hauto.
  destruct (_ =? _)%nat eqn:Hlen; [|exact Hauto].
  intros Heq. inversion Heq; subst. now apply Nat.eqb_eq in Hlen.
Qed.

(** X11: the size selection of [_create_text_solids].  With a
    non-negative line spacing the selection returns, whether the sizes
    are explicit or automatic, and whatever it returns holds exactly one
    size per line; every non-empty line therefore reads its own entry
    [sizes[i]], and the fallback [sizes[-1]] of the line data is never
    evaluated. *)
Theorem chosen_sizes_one_per_line (p : SignParams) :
  0 <= line_spacing p ->
  (exists chosen : list R, chosen_sizes p (_get_line_texts p) = Ok chosen)
  /\ forall chosen : list R,
       chosen_sizes p (_get_line_texts p) = Ok chosen ->
       List.length chosen = List.length (_get_line_texts p)
       /\ Forall (fun i => (i < List.length chosen)%nat)
            (non_empty_indices (_get_line_texts p))
       /\ line_data_of (_get_line_texts p) chosen
            (non_empty_indices (_get_line_texts p))
          = map (fun i =>
                   (strip (nth i (_get_line_texts p) EmptyString),
                    nth i chosen 0))
              (non_empty_indices (_get_line_texts p)).
Proof.
  intros Hls. split.
  { apply chosen_sizes_returns. now apply non_negative_spacing_divisor. }
  intros chosen Hchosen.
  pose proof (chosen_sizes_length p chosen Hchosen) as Hlen.
  assert (Hrange : Forall (fun i => (i < List.length chosen)%nat)
                     (non_empty_indices (_get_line_texts p))).
  { apply Forall_forall. intros i Hin. rewrite Hlen.
    now apply non_empty_indices_in_range. }
  split; [exact Hlen|]. split; [exact Hrange|].
  unfold line_data_of. apply map_ext_in. intros i Hin.
  rewrite Forall_forall in Hrange. specialize (Hrange i Hin).
  apply Nat.ltb_lt in Hrange. now rewrite Hrange.
Qed.

(** Two lines with a single explicit size: the mismatched list gives way
    to one automatic size per line. *)
Lemma chosen_sizes_one_per_line_mismatched :
  (exists chosen : list R,
     chosen_sizes mismatched_sizes_params
       (_get_line_texts mismatched_sizes_params) = Ok chosen)
  /\ forall chosen : list R,
       chosen_sizes mismatched_sizes_params
         (_get_line_texts mismatched_sizes_params) = Ok chosen ->
       List.length chosen
       = List.length (_get_line_texts mismatched_sizes_params)
       /\ Forall (fun i => (i < List.length chosen)%nat)
            (non_empty_indices (_get_line_texts mismatched_sizes_params))
       /\ line_data_of (_get_line_texts mismatched_sizes_params) chosen
            (non_empty_indices (_get_line_texts mismatched_sizes_params))
          = map (fun i =>
                   (strip
                      (nth i (_get_line_texts mismatched_sizes_params)
                         EmptyString),
                    nth i chosen 0))
              (non_empty_indices (_get_line_texts mismatched_sizes_params)).
Proof.
  apply (chosen_sizes_one_per_line mismatched_sizes_params). cbn. lra.
Defined.

(** The underlined letter, at a point of its underline. *)
Lemma detail_is_mirrored_parts_underlined :
  let p := underlined_letter_params 3 0.6 in
  let black :=
    Mirror_YZ
      (Union (Text (0, 0) "A" 10 0.6 (FontKind "Arial" "regular"))
         (underline_rect p 0 0 10 (10 * len "A" * CHAR_WIDTH_RATIO))) in
  (covers (cadquery := offsetless_kernel) black (0, -3.5, 0.3)
   <-> (exists t : Solid,
          _create_text_solids (cadquery := offsetless_kernel) p
          = Ok (Some t)
          /\ covers (cadquery := offsetless_kernel) t (- 0, -3.5, 0.3))
       \/ (exists b : Solid,
             _create_border_frame (cadquery := offsetless_kernel) p = Some b
             /\ covers (cadquery := offsetless_kernel) b (- 0, -3.5, 0.3)))
  /\ (covers (cadquery := offsetless_kernel) (Cut (plate_of p) black)
        (0, -3.5, 0.3)
      <-> covers (cadquery := offsetless_kernel) (plate_of p) (0, -3.5, 0.3)
          /\ ~ covers (cadquery := offsetless_kernel) black (0, -3.5, 0.3)).
Proof.
  cbv zeta.
  apply (detail_is_mirrored_parts (cadquery := offsetless_kernel)
           (underlined_letter_params 3 0.6)).
  reflexivity.
Defined.

(* ================================================================== *)
(** * Further properties: the plate outline *)
(* ================================================================== *)

(** X13: clamping the corner radius is idempotent and monotone in the
    requested radius, and a non-negative requested radius is never
    enlarged. *)
Theorem clamp_radius_idempotent_monotone (r w h : R) :
  _clamp_radius (_clamp_radius r w h) w h = _clamp_radius r w h
  /\ (forall r' : R, r <= r' -> _clamp_radius r w h <= _clamp_radius r' w h)
  /\ (0 <= r -> _clamp_radius r w h <= r).
Proof.
  unfold _clamp_radius. split; [|split].
  - minmax_cases; lra.
  - intros r' Hr. minmax_cases; lra.
  - intros Hr. minmax_cases; lra.
Qed.

Lemma cos_PI4_square : cos (PI / 4) * cos (PI / 4) = 1 / 2.
Proof.
  rewrite cos_PI4.
  assert (Hs : sqrt 2 * sqrt 2 = 2) by (apply sqrt_sqrt; lra).
  assert (Hpos : 0 < sqrt 2) by (apply sqrt_lt_R0; lra).
  field_simplify; [|lra]. rewrite <- Rsqr_pow2. unfold Rsqr.
  rewrite Hs. reflexivity.
Qed.

Lemma clamp_radius_room (r w h : R) :
  0.1 <= _clamp_radius r w h ->
  _clamp_radius r w h <= w / 2 - 0.1 /\ _clamp_radius r w h <= h / 2 - 0.1.
Proof. unfold _clamp_radius. split; minmax_cases; lra. Qed.

(** X14: with a clamped radius r of at least 0.1, the concave outline is
    a closed wire from (-w/2 + r, -h/2): its four straight edges lie on
    the sides of the w x h rectangle, each at least 0.2 long, and the
    start, middle and end point of each corner arc lie on the circle of
    radius r about the true corner of the rectangle. *)
Theorem concave_wire_arcs_about_corners (w h r : R) :
  let rc := _clamp_radius r w h in
  let hw := w / 2 in
  let hh := h / 2 in
  0.1 <= rc ->
  exists cmds : list PathCmd,
    _create_concave_wire w h r = ClosedPath (- hw + rc, - hh) cmds
    /\ wire_end (- hw + rc, - hh) cmds = (- hw + rc, - hh)
    /\ wire_lines (- hw + rc, - hh) cmds
       = [ ((- hw + rc, - hh), (hw - rc, - hh));
           ((hw, - hh + rc), (hw, hh - rc));
           ((hw - rc, hh), (- hw + rc, hh));
           ((- hw, hh - rc), (- hw, - hh + rc)) ]
    /\ Forall (fun edge => 0.2 <= dist (fst edge) (snd edge))
         (wire_lines (- hw + rc, - hh) cmds)
    /\ Forall2 (arc_on_circle rc)
         [ (hw, - hh); (hw, hh); (- hw, hh); (- hw, - hh) ]
         (wire_arcs (- hw + rc, - hh) cmds).
Proof.
  cbv zeta. intros Hrc.
  destruct (clamp_radius_room r w h Hrc) as [Hw Hh].
  unfold _create_concave_wire.
  assert (Hbig : ltb (_clamp_radius r w h) 0.1 = false)
    by (apply ltb_false; lra).
  rewrite Hbig.
  set (rc := _clamp_radius r w h) in *.
  set (k := rc * cos (PI / 4)).
  assert (Hk : k * k = rc * rc / 2).
  { unfold k. replace (rc * cos (PI / 4) * (rc * cos (PI / 4)))
      with (rc * rc * (cos (PI / 4) * cos (PI / 4))) by ring.
    rewrite cos_PI4_square. field. }
  eexists. split; [reflexivity|]. cbn [wire_end wire_lines wire_arcs].
  split; [reflexivity|]. split; [reflexivity|]. split.
  - repeat apply Forall_cons; [| | | |apply Forall_nil]; cbn [fst snd].
    + rewrite dist_horizontal; lra.
    + rewrite dist_vertical; lra.
    + rewrite dist_sym, dist_horizontal; lra.
    + rewrite dist_sym, dist_vertical; lra.
  - repeat constructor; unfold on_circle; cbn [fst snd]; nra.
Qed.

(** X15: with a clamped radius r of at least 0.1, the rounded outline
    draws the same four straight edges, and the start, middle and end
    point of each corner arc lie on the circle of radius r about the
    point inset by r from the corner along both axes. *)
Theorem rounded_wire_arcs_inset (w h r : R) :
  let rc := _clamp_radius r w h in
  let hw := w / 2 in
  let hh := h / 2 in
  0.1 <= rc ->
  exists cmds : list PathCmd,
    _create_rounded_wire w h r = ClosedPath (- hw + rc, - hh) cmds
    /\ wire_end (- hw + rc, - hh) cmds = (- hw + rc, - hh)
    /\ wire_lines (- hw + rc, - hh) cmds
       = [ ((- hw + rc, - hh), (hw - rc, - hh));
           ((hw, - hh + rc), (hw, hh - rc));
           ((hw - rc, hh), (- hw + rc, hh));
           ((- hw, hh - rc), (- hw, - hh + rc)) ]
    /\ Forall2 (arc_on_circle rc)
         [ (hw - rc, - hh + rc); (hw - rc, hh - rc);
           (- hw + rc, hh - rc); (- hw + rc, - hh + rc) ]
         (wire_arcs (- hw + rc, - hh) cmds).
Proof.
  cbv zeta. intros Hrc.
  unfold _create_rounded_wire.
  assert (Hbig : ltb (_clamp_radius r w h) 0.1 = false)
    by (apply ltb_false; lra).
  rewrite Hbig.
  set (rc := _clamp_radius r w h) in *.
  set (c := cos (PI / 4)).
  assert (Hc : c * c = 1 / 2) by apply cos_PI4_square.
  set (a := rc * (1 - c)).
  assert (Ha : (rc - a) * (rc - a) = rc * rc / 2).
  { unfold a. replace ((rc - rc * (1 - c)) * (rc - rc * (1 - c)))
      with (rc * rc * (c * c)) by ring.
    rewrite Hc. field. }
  eexists. split; [reflexivity|]. cbn [wire_end wire_lines wire_arcs].
  split; [reflexivity|]. split; [reflexivity|].
  repeat constructor; unfold on_circle; cbn [fst snd]; nra.
Qed.

(** The default plate: radius 12 on 180 x 120. *)
Lemma concave_wire_arcs_about_corners_default :
  _clamp_radius 12 180 120 = 12
  /\ exists cmds : list PathCmd,
       _create_concave_wire 180 120 12
       = ClosedPath (- (180 / 2) + 12, - (120 / 2)) cmds
       /\ Forall2 (arc_on_circle 12)
            [ (180 / 2, - (120 / 2)); (180 / 2, 120 / 2);
              (- (180 / 2), 120 / 2); (- (180 / 2), - (120 / 2)) ]
            (wire_arcs (- (180 / 2) + 12, - (120 / 2)) cmds).
Proof.
  assert (Hclamp : _clamp_radius 12 180 120 = 12)
    by (unfold _clamp_radius; minmax_cases; lra).
  split; [exact Hclamp|].
  pose proof (concave_wire_arcs_about_corners 180 120 12) as H.
  cbv zeta in H. rewrite Hclamp in H.
  destruct H as (cmds & Hwire & _ & _ & _ & Harcs); [lra|].
  exists cmds. split; assumption.
Defined.

Lemma rounded_wire_arcs_inset_default :
  exists cmds : list PathCmd,
    _create_rounded_wire 180 120 12
    = ClosedPath (- (180 / 2) + 12, - (120 / 2)) cmds
    /\ Forall2 (arc_on_circle 12)
         [ (180 / 2 - 12, - (120 / 2) + 12); (180 / 2 - 12, 120 / 2 - 12);
           (- (180 / 2) + 12, 120 / 2 - 12);
           (- (180 / 2) + 12, - (120 / 2) + 12) ]
         (wire_arcs (- (180 / 2) + 12, - (120 / 2)) cmds).
Proof.
  assert (Hclamp : _clamp_radius 12 180 120 = 12)
    by (unfold _clamp_radius; minmax_cases; lra).
  pose proof (rounded_wire_arcs_inset 180 120 12) as H.
  cbv zeta in H. rewrite Hclamp in H.
  destruct H as (cmds & Hwire & _ & _ & Harcs); [lra|].
  exists cmds. split; assumption.
Defined.

(* ================================================================== *)
(** * Further properties: the preview paths *)
(* ================================================================== *)

Lemma polar_on_circle (cx cy radius a : R) :
  on_circle (cx, cy) radius (cx + radius * cos a, cy + radius * sin a).
Proof.
  unfold on_circle. cbn [fst snd].
  pose proof (sin2_cos2 a) as Hunit. unfold Rsqr in Hunit.
  replace ((cx + radius * cos a - cx) * (cx + radius * cos a - cx)
           + (cy + radius * sin a - cy) * (cy + radius * sin a - cy))
    with (radius * radius * (sin a * sin a + cos a * cos a)) by ring.
  rewrite Hunit. ring.
Qed.

(** X16: both arc samplers of the preview append exactly the requested
    number of line segments to the path, and every point they draw to
    lies on the circle of the given radius about the given center. *)
Theorem arc_samples_on_circle (path : QPainterPath) (cx cy radius : R)
  (n : nat) :
  (forall x1 y1 x2 y2 : R,
     _add_offset_arc path cx cy radius x1 y1 x2 y2 n
     = path ++ arc_samples cx cy radius x1 y1 x2 y2 n
     /\ List.length (arc_samples cx cy radius x1 y1 x2 y2 n) = n
     /\ Forall (sample_on_circle (cx, cy) radius)
          (arc_samples cx cy radius x1 y1 x2 y2 n))
  /\ (forall start_deg end_deg : R,
        _add_concave_arc path cx cy radius start_deg end_deg n
        = path ++ concave_arc_samples cx cy radius start_deg end_deg n
        /\ List.length (concave_arc_samples cx cy radius start_deg end_deg n)
           = n
        /\ Forall (sample_on_circle (cx, cy) radius)
             (concave_arc_samples cx cy radius start_deg end_deg n)).
Proof.
  split.
  - intros x1 y1 x2 y2. split; [reflexivity|]. unfold arc_samples. split.
    + now rewrite length_map, length_seq.
    + apply Forall_map, Forall_forall. intros i _.
      eexists. split; [reflexivity | apply polar_on_circle].
  - intros start_deg end_deg. split; [reflexivity|].
    unfold concave_arc_samples. split.
    + now rewrite length_map, length_seq.
    + apply Forall_map, Forall_forall. intros i _.
      eexists. split; [reflexivity | apply polar_on_circle].
Qed.

(** What [_build_offset_concave_path] does when the offset leaves room. *)
Lemma concave_offset_with_room (hw hh r d : R) (n_arc : nat) :
  d < hw ->
  d < hh ->
  (0 < r + d /\ d < r + d /\ (r + d) * (r + d) - d * d < 0
   /\ _build_offset_concave_path hw hh r d n_arc = Raise ValueError)
  \/ _build_offset_concave_path hw hh r d n_arc = Ok [inset_rect hw hh d]
  \/ (0 <= (r + d) * (r + d) - d * d
      /\ exists rest : QPainterPath,
           _build_offset_concave_path hw hh r d n_arc
           = Ok (MoveTo (- hw + sqrt ((r + d) * (r + d) - d * d), - hh + d)
                 :: LineTo (hw - sqrt ((r + d) * (r + d) - d * d), - hh + d)
                 :: rest)).
Proof.
  intros Hw Hh. unfold _build_offset_concave_path.
  assert (H1 : leb hw d = false) by (apply leb_false; lra).
  assert (H2 : leb hh d = false) by (apply leb_false; lra).
  assert (H3 : gtb hw d = true) by (apply ltb_true; lra).
  assert (H4 : gtb hh d = true) by (apply ltb_true; lra).
  rewrite H1, H2, H3, H4. cbn [orb andb app].
  destruct (leb (r + d) 0) eqn:HR; [right; left; reflexivity|].
  destruct (geb d (r + d)) eqn:Hge; [right; left; reflexivity|].
  apply leb_false in HR. apply leb_false in Hge.
  unfold math_sqrt.
  destruct (ltb ((r + d) * (r + d) - d * d) 0) eqn:Hneg.
  - apply ltb_true in Hneg. left. cbn [bind]. repeat split; auto.
  - apply ltb_false in Hneg. cbn [bind].
    destruct (leb hw _ || leb hh _); [right; left; reflexivity|].
    right. right. split; [exact Hneg|].
    unfold _add_offset_arc. eexists.
    repeat rewrite <- app_assoc. cbn [app]. reflexivity.
Qed.

(** X17: [_build_offset_concave_path] raises in one situation only: the
    offset d is below both half-extents, R = r + d is positive, d < R,
    and R^2 - d^2 is negative, where [math.sqrt] raises ValueError.  This
    needs a negative offset: for d >= 0 the function always returns. *)
Theorem concave_offset_raises_iff (hw hh r d : R) (n_arc : nat) :
  (forall e : exn,
     _build_offset_concave_path hw hh r d n_arc = Raise e
     <-> e = ValueError /\ d < hw /\ d < hh /\ 0 < r + d /\ d < r + d
         /\ (r + d) * (r + d) - d * d < 0)
  /\ (0 <= d ->
      exists path : QPainterPath,
        _build_offset_concave_path hw hh r d n_arc = Ok path).
Proof.
  assert (Hcases :
    (hw <= d \/ hh <= d) \/ (d < hw /\ d < hh)).
  { destruct (Rle_dec hw d); [tauto|]. destruct (Rle_dec hh d); [tauto|].
    right. lra. }
  split.
  - intros e. split.
    + intros Hraise. destruct Hcases as [Hroom | [Hw Hh]].
      * rewrite (concave_offset_no_room hw hh r d n_arc Hroom) in Hraise.
        discriminate.
      * destruct (concave_offset_with_room hw hh r d n_arc Hw Hh)
          as [(HR & Hd & Hneg & Heq) | [Heq | (_ & rest & Heq)]];
          rewrite Heq in Hraise; inversion Hraise; auto 10.
    + intros (-> & Hw & Hh & HR & Hd & Hneg).
      destruct (concave_offset_with_room hw hh r d n_arc Hw Hh)
        as [(_ & _ & _ & Heq) | [Heq | (Hpos & _)]]; [exact Heq | | lra].
      exfalso. revert Heq. unfold _build_offset_concave_path.
      assert (H1 : leb hw d = false) by (apply leb_false; lra).
      assert (H2 : leb hh d = false) by (apply leb_false; lra).
      assert (H3 : leb (r + d) 0 = false) by (apply leb_false; lra).
      assert (H4 : geb d (r + d) = false) by (apply leb_false; lra).
      assert (H5 : ltb ((r + d) * (r + d) - d * d) 0 = true)
        by (apply ltb_true; lra).
      rewrite H1, H2, H3, H4. cbn [orb]. unfold math_sqrt.
      rewrite H5. discriminate.
  - intros Hd. destruct Hcases as [Hroom | [Hw Hh]].
    + exists []. now apply concave_offset_no_room.
    + destruct (concave_offset_with_room hw hh r d n_arc Hw Hh)
        as [(HR & HdR & Hneg & _) | [Heq | (_ & rest & Heq)]]; eauto.
      exfalso.
      assert (Hr : 0 < r) by lra.
      assert (Hprod : 0 <= r * (r + 2 * d))
        by (apply Rmult_le_pos; lra).
      lra.
Qed.

(** The last sample of a concave arc is at its end angle. *)
Lemma concave_arc_end (cx cy r start_deg end_deg : R) (n : nat) :
  (0 < n)%nat ->
  pen_position (concave_arc_samples cx cy r start_deg end_deg n)
  = Some (cx + r * cos (radians end_deg), cy + r * sin (radians end_deg)).
Proof.
  intros Hn. destruct n as [|n]; [lia|].
  unfold pen_position, concave_arc_samples.
  rewrite seq_S, map_app. cbn [map]. rewrite last_last.
  change (1 + n)%nat with (S n).
  assert (Hone : INR (S n) / INR (S n) = 1).
  { field. apply not_0_INR. lia. }
  rewrite Hone.
  replace (start_deg + (end_deg - start_deg) * 1) with end_deg by ring.
  reflexivity.
Qed.

Lemma radians_90 : radians 90 = PI / 2.
Proof. unfold radians. field. Qed.

Lemma radians_180 : radians 180 = PI.
Proof. unfold radians. field. Qed.

Lemma radians_minus_90 : radians (-90) = - (PI / 2).
Proof. unfold radians. field. Qed.

Lemma radians_0 : radians 0 = 0.
Proof. unfold radians. field. Qed.

Lemma clamp_radius_is_min (r w h : R) :
  0 <= Rmin (Rmin r (w / 2 - 0.1)) (h / 2 - 0.1) ->
  _clamp_radius r w h = Rmin (Rmin r (w / 2 - 0.1)) (h / 2 - 0.1).
Proof. intros Hm. unfold _clamp_radius. now apply Rmax_right. Qed.

(** X18: for the concave style and a requested radius above 0.1, the
    preview outline starts at (-w/2 + r, -h/2) with r = min(requested,
    w/2 - 0.1, h/2 - 0.1) and alternates the four straight edges with the
    four sampled corner arcs; each arc ends exactly where the next edge
    (or, for the last one, the outline) starts, so the outline has no
    gap.  When r is at least 0.1 the CAD outline of [_create_concave_wire]
    has the same straight edges, and its arcs end at the same points. *)
Theorem preview_outline_concave (w h r : R) :
  let hw := w / 2 in
  let hh := h / 2 in
  let rc := Rmin (Rmin r (hw - 0.1)) (hh - 0.1) in
  let arc := fun (corner : point2) (start_deg end_deg : R) =>
    concave_arc_samples (fst corner) (snd corner) rc start_deg end_deg 16 in
  0.1 < r ->
  _build_outline_path w h r "concave"
  = Elements
      ([MoveTo (- hw + rc, - hh); LineTo (hw - rc, - hh)]
       ++ arc (hw, - hh) 180 90
       ++ [LineTo (hw, hh - rc)]
       ++ arc (hw, hh) 270 180
       ++ [LineTo (- hw + rc, hh)]
       ++ arc (- hw, hh) 0 (-90)
       ++ [LineTo (- hw, - hh + rc)]
       ++ arc (- hw, - hh) 90 0
       ++ [CloseSubpath])
  /\ pen_position (arc (hw, - hh) 180 90) = Some (hw, - hh + rc)
  /\ pen_position (arc (hw, hh) 270 180) = Some (hw - rc, hh)
  /\ pen_position (arc (- hw, hh) 0 (-90)) = Some (- hw, hh - rc)
  /\ pen_position (arc (- hw, - hh) 90 0) = Some (- hw + rc, - hh)
  /\ (0.1 <= rc ->
      exists cmds : list PathCmd,
        _create_concave_wire w h r = ClosedPath (- hw + rc, - hh) cmds
        /\ wire_lines (- hw + rc, - hh) cmds
           = [ ((- hw + rc, - hh), (hw - rc, - hh));
               ((hw, - hh + rc), (hw, hh - rc));
               ((hw - rc, hh), (- hw + rc, hh));
               ((- hw, hh - rc), (- hw, - hh + rc)) ]
        /\ map snd (wire_arcs (- hw + rc, - hh) cmds)
           = [ (hw, - hh + rc); (hw - rc, hh);
               (- hw, hh - rc); (- hw + rc, - hh) ]).
Proof.
  cbv zeta. intros Hr.
  set (rc := Rmin (Rmin r (w / 2 - 0.1)) (h / 2 - 0.1)).
  assert (Hn : (0 < 16)%nat) by lia.
  split; [|split; [|split; [|split; [|split]]]].
  - unfold _build_outline_path. fold rc.
    assert (Hgt : gtb r 0.1 = true) by (apply ltb_true; lra).
    rewrite Hgt. cbn [String.eqb Ascii.eqb Bool.eqb andb].
    unfold _add_concave_arc. cbn [fst snd].
    f_equal; repeat rewrite <- app_assoc; reflexivity.
  - cbn [fst snd]. rewrite (concave_arc_end _ _ _ _ _ _ Hn), radians_90.
    rewrite cos_PI2, sin_PI2. f_equal. f_equal; ring.
  - cbn [fst snd]. rewrite (concave_arc_end _ _ _ _ _ _ Hn), radians_180.
    rewrite cos_PI, sin_PI. f_equal. f_equal; ring.
  - cbn [fst snd].
    rewrite (concave_arc_end _ _ _ _ _ _ Hn), radians_minus_90.
    rewrite cos_neg, sin_neg, cos_PI2, sin_PI2. f_equal. f_equal; ring.
  - cbn [fst snd]. rewrite (concave_arc_end _ _ _ _ _ _ Hn), radians_0.
    rewrite cos_0, sin_0. f_equal. f_equal; ring.
  - intros Hrc. unfold _create_concave_wire.
    rewrite (clamp_radius_is_min r w h) by (fold rc; lra). fold rc.
    assert (Hbig : ltb rc 0.1 = false) by (apply ltb_false; lra).
    rewrite Hbig. eexists. split; [reflexivity|].
    cbn [wire_lines wire_arcs map snd]. split; reflexivity.
Qed.

(** The default plate. *)
Lemma preview_outline_concave_default :
  exists path : QPainterPath,
    _build_outline_path 180 120 12 "concave" = Elements path
    /\ hd CloseSubpath path = MoveTo (- (180 / 2) + 12, - (120 / 2))
    /\ pen_position
         (concave_arc_samples (- (180 / 2)) (- (120 / 2)) 12 90 0 16)
       = Some (- (180 / 2) + 12, - (120 / 2)).
Proof.
  assert (Hrc : Rmin (Rmin 12 (180 / 2 - 0.1)) (120 / 2 - 0.1) = 12)
    by (minmax_cases; lra).
  pose proof (preview_outline_concave 180 120 12) as H.
  cbv zeta in H. rewrite Hrc in H. cbn [fst snd] in H.
  destruct H as (Hpath & _ & _ & _ & Hlast & _); [lra|].
  eexists. split; [exact Hpath|]. split; [reflexivity | exact Hlast].
Defined.

(** With room and a non-negative offset the offset path is not empty. *)
Lemma concave_offset_not_empty (hw hh r d : R) (n_arc : nat) :
  0 <= d ->
  d < hw ->
  d < hh ->
  exists path : QPainterPath,
    _build_offset_concave_path hw hh r d n_arc = Ok path
    /\ isEmpty (Elements path) = false.
Proof.
  intros Hd Hw Hh.
  destruct (concave_offset_with_room hw hh r d n_arc Hw Hh)
    as [(HR & HdR & Hneg & _) | [Heq | (_ & rest & Heq)]].
  - exfalso.
    assert (Hr : 0 < r) by lra.
    assert (Hprod : 0 <= r * (r + 2 * d)) by (apply Rmult_le_pos; lra).
    lra.
  - eexists. split; [exact Heq|].
    unfold isEmpty, inset_rect. cbn [forallb adds_nothing]. unfold is_null.
    destruct (Req_dec_T (2 * (hw - d)) 0); [lra | reflexivity].
  - eexists. split; [exact Heq | reflexivity].
Qed.

(** X19: the border of the preview for the concave style (requested
    radius above 0.1, a plate of positive size, a positive border width
    and a non-negative offset) degrades without ever failing: when the
    offset reaches a half-extent nothing is drawn; when only offset +
    width reaches a half-extent the whole outer offset shape is filled;
    otherwise the outer offset shape minus the inner one is filled. *)
Theorem preview_border_concave (p : SignParams) :
  let hw := width p / 2 in
  let hh := height p / 2 in
  let off := border_offset p in
  let bw := border_width p in
  let rc := Rmin (Rmin (corner_radius p) (hw - 0.1)) (hh - 0.1) in
  border_style p = "concave"%string ->
  0.1 < corner_radius p ->
  0 < width p ->
  0 < height p ->
  0 < bw ->
  0 <= off ->
  (hw <= off \/ hh <= off -> preview_border p = Ok None)
  /\ (off < hw -> off < hh -> hw <= off + bw \/ hh <= off + bw ->
      exists outer : QPainterPath,
        _build_offset_concave_path hw hh rc off 16 = Ok outer
        /\ preview_border p = Ok (Some (Whole (Elements outer))))
  /\ (off + bw < hw -> off + bw < hh ->
      exists outer inner : QPainterPath,
        _build_offset_concave_path hw hh rc off 16 = Ok outer
        /\ _build_offset_concave_path hw hh rc (off + bw) 16 = Ok inner
        /\ preview_border p
           = Ok (Some (Ring (Elements outer) (Elements inner)))).
Proof.
  cbv zeta. intros Hstyle Hr Hwidth Hheight Hbw Hoff.
  set (hw := width p / 2). set (hh := height p / 2).
  set (rc := Rmin (Rmin (corner_radius p) (hw - 0.1)) (hh - 0.1)).
  assert (Hstart :
    preview_border p
    = (paths <-
         (outer_path <-
            _build_offset_concave_path hw hh rc (border_offset p) 16 ;;
          inner_path <-
            _build_offset_concave_path hw hh rc
              (border_offset p + border_width p) 16 ;;
          Ok (Elements outer_path, Some (Elements inner_path))) ;;
       let '(outer_path, inner_path) := paths in
       if negb (isEmpty outer_path) then
         match inner_path with
         | Some inner =>
             if negb (isEmpty inner) then Ok (Some (Ring outer_path inner))
             else Ok (Some (Whole outer_path))
         | None => Ok (Some (Whole outer_path))
         end
       else Ok None)).
  { unfold preview_border, _build_border_paths. fold hw hh rc.
    assert (H1 : leb (width p) 0 = false) by (apply leb_false; lra).
    assert (H2 : leb (height p) 0 = false) by (apply leb_false; lra).
    assert (H3 : gtb (border_width p) 0 = true) by (apply ltb_true; lra).
    assert (H4 : gtb (corner_radius p) 0.1 = true) by (apply ltb_true; lra).
    rewrite H1, H2, H3, H4, Hstyle. reflexivity. }
  rewrite Hstart. split; [|split].
  - intros Hroom.
    rewrite (concave_offset_no_room hw hh rc (border_offset p) 16 Hroom).
    cbn [bind].
    rewrite (concave_offset_no_room hw hh rc
               (border_offset p + border_width p) 16)
      by (destruct Hroom; [left | right]; lra).
    reflexivity.
  - intros Hw Hh Hinner.
    destruct (concave_offset_not_empty hw hh rc (border_offset p) 16
                Hoff Hw Hh) as (outer & Houter & Hfull).
    exists outer. split; [exact Houter|].
    rewrite Houter. cbn [bind].
    rewrite (concave_offset_no_room hw hh rc
               (border_offset p + border_width p) 16 Hinner).
    cbn [bind]. rewrite Hfull. reflexivity.
  - intros Hw Hh.
    destruct (concave_offset_not_empty hw hh rc (border_offset p) 16)
      as (outer & Houter & Hfull); [lra | lra | lra |].
    destruct (concave_offset_not_empty hw hh rc
                (border_offset p + border_width p) 16)
      as (inner & Hinner & Hfull'); [lra | lra | lra |].
    exists outer, inner. split; [exact Houter|]. split; [exact Hinner|].
    rewrite Houter, Hinner. cbn [bind]. rewrite Hfull, Hfull'. reflexivity.
Qed.

(** The default configuration: the frame is the outer offset curve minus
    the inner one. *)
Lemma preview_border_concave_default :
  exists outer inner : QPainterPath,
    _build_offset_concave_path (180 / 2) (120 / 2) 12 6 16 = Ok outer
    /\ _build_offset_concave_path (180 / 2) (120 / 2) 12 (6 + 2) 16
       = Ok inner
    /\ preview_border default_params
       = Ok (Some (Ring (Elements outer) (Elements inner))).
Proof.
  assert (Hrc : Rmin (Rmin 12 (180 / 2 - 0.1)) (120 / 2 - 0.1) = 12)
    by (minmax_cases; lra).
  pose proof (preview_border_concave default_params) as H.
  cbv zeta in H.
  cbn [default_params width height border_offset border_width corner_radius
       border_style] in H.
  rewrite Hrc in H.
  destruct H as (_ & _ & Hring); try lra; [reflexivity|].
  apply Hring; lra.
Defined.

(* ================================================================== *)
(** * Further properties: the parameter panel and the two layouts *)
(* ================================================================== *)

Lemma get_params_inv (st : PanelState) (p : SignParams) :
  get_params st = Some p ->
  exists style : string,
    get_border_style_str (border_style_index st) = Some style
    /\ border_style p = style
    /\ sizes p = None
    /\ ((existsb (fun l => truthy (strip l))
           (map (fun runs => join (map StyledRun.text runs))
              (get_styled_lines st)) = true
         /\ lines p
            = map (fun runs => join (map StyledRun.text runs))
                (get_styled_lines st)
         /\ styled_lines p = Some (get_styled_lines st))
        \/ (lines p = [EmptyString]
            /\ styled_lines p = Some [[blank_run]])).
Proof.
  unfold get_params.
  destruct (get_border_style_str (border_style_index st)) as [style|];
    [|discriminate].
  intros Hp. inversion Hp; subst; clear Hp. cbn.
  exists style. split; [reflexivity|]. split; [reflexivity|].
  split; [reflexivity|].
  destruct (existsb _ _) eqn:Hany; cbn [negb]; [left | right]; auto.
Qed.

Lemma border_style_str_values (idx : Z) (style : string) :
  get_border_style_str idx = Some style ->
  style = "concave"%string \/ style = "rounded"%string
  \/ style = "none"%string.
Proof.
  unfold get_border_style_str.
  assert (Hitems : forall n, nth_error ["concave"; "rounded"; "none"]%string n
                             = Some style ->
                   style = "concave"%string \/ style = "rounded"%string
                   \/ style = "none"%string).
  { intros [|[|[|n]]] H; cbn in H; inversion H; auto.
    destruct n; discriminate. }
  destruct (0 <=? idx)%Z; [apply Hitems|].
  destruct (-3 <=? idx)%Z; [apply Hitems | discriminate].
Qed.

Lemma get_styled_lines_runs (st : PanelState) :
  Forall (fun runs : list StyledRun.t => runs <> []) (get_styled_lines st).
Proof.
  unfold get_styled_lines. apply Forall_map, Forall_forall.
  intros [|r rs] _; discriminate.
Qed.

Lemma get_params_line_texts (st : PanelState) (p : SignParams) :
  get_params st = Some p ->
  _get_line_texts p = lines p.
Proof.
  intros Hp.
  destruct (get_params_inv st p Hp) as (style & _ & _ & _ & Hlines).
  unfold _get_line_texts.
  destruct Hlines as [(_ & Hl & Hs) | (Hl & Hs)]; rewrite Hs, Hl; reflexivity.
Qed.

(** X20: the parameters the panel hands over are consistent: the plain
    lines are the concatenated run texts of the styled lines (so the
    generator, which reads the styled lines, and the preview, which reads
    the plain lines, see the same text); there is at least one line, one
    styled line per plain line, and at least one run per line; the sizes
    are never explicit, so both sides size automatically; and the border
    style is one of "concave", "rounded" and "none". *)
Theorem get_params_consistent (st : PanelState) (p : SignParams) :
  get_params st = Some p ->
  _get_line_texts p = lines p
  /\ lines p <> []
  /\ (exists styled : list (list StyledRun.t),
        styled_lines p = Some styled
        /\ List.length styled = List.length (lines p)
        /\ Forall (fun runs : list StyledRun.t => runs <> []) styled)
  /\ sizes p = None
  /\ chosen_sizes p (_get_line_texts p) = auto_font_sizes p
  /\ preview_sizes p = auto_font_sizes p
  /\ (border_style p = "concave"%string \/ border_style p = "rounded"%string
      \/ border_style p = "none"%string).
Proof.
  intros Hp.
  destruct (get_params_inv st p Hp)
    as (style & Hidx & Hstyle & Hsizes & Hlines).
  pose proof (get_params_line_texts st p Hp) as Htexts.
  split; [exact Htexts|]. split; [|split; [|split; [exact Hsizes|]]].
  - destruct Hlines as [(Hany & Hl & _) | (Hl & _)]; rewrite Hl;
      [|discriminate].
    intros Hnil. rewrite Hnil in Hany. discriminate.
  - destruct Hlines as [(_ & Hl & Hs) | (Hl & Hs)]; rewrite Hs, Hl.
    + exists (get_styled_lines st). split; [reflexivity|].
      split; [now rewrite length_map | apply get_styled_lines_runs].
    + exists [[blank_run]]. split; [reflexivity|]. split; [reflexivity|].
      constructor; [discriminate | constructor].
  - split; [|split].
    + unfold chosen_sizes. now rewrite Hsizes.
    + unfold preview_sizes. now rewrite Hsizes.
    + rewrite Hstyle. now apply (border_style_str_values _ _ Hidx).
Qed.

(** The panel as it starts. *)
Lemma get_params_consistent_initial :
  exists p : SignParams,
    get_params initial_panel = Some p
    /\ _get_line_texts p = ["Her bor"; "Ola Nordmann"]%string
    /\ lines p = ["Her bor"; "Ola Nordmann"]%string
    /\ sizes p = None.
Proof.
  eexists. split; [reflexivity|].
  pose proof (get_params_consistent initial_panel _ eq_refl)
    as (Htexts & _ & _ & Hsizes & _).
  split; [rewrite Htexts; reflexivity|]. split; [reflexivity | exact Hsizes].
Defined.

Lemma non_empty_indices_filter_nil (line_texts : list string) :
  non_empty_indices line_texts = [] ->
  filter (fun l => truthy (strip l)) line_texts = [].
Proof.
  unfold non_empty_indices. generalize 0%nat.
  induction line_texts as [|l rest IH]; intros start Hnil; [reflexivity|].
  simpl in *. destruct (truthy (strip l)); [discriminate|].
  now apply (IH (S start)).
Qed.

(** With a line to draw, the sizes the preview uses are not an empty
    list when the plain lines are what the generator reads. *)
Lemma preview_sizes_not_empty (p : SignParams) (chosen : list R) :
  _get_line_texts p = lines p ->
  filter (fun l => truthy (strip l)) (lines p) <> [] ->
  preview_sizes p = Ok chosen ->
  chosen <> [].
Proof.
  intros Htexts Hlines. unfold preview_sizes.
  assert (Hauto : auto_font_sizes p = Ok chosen -> chosen <> []).
  { intros Hl. destruct (auto_font_sizes_uniform p chosen Hl) as [u ->].
    rewrite Htexts. destruct (lines p); [now elim Hlines | discriminate]. }
  destruct (sizes p) as [[|x xs]|]; try exact Hauto.
  destruct (_ =? _)%nat; [|exact Hauto].
  intros Heq. inversion Heq. discriminate.
Qed.

Lemma preview_text_block_of_sizes (p : SignParams) :
  _get_line_texts p = lines p ->
  preview_text_block p = painted_of (text_layout p).
Proof.
  intros Htexts.
  assert (Hsizes : preview_sizes p = chosen_sizes p (lines p)) by reflexivity.
  pose proof (preview_sizes_not_empty p) as Hne.
  unfold preview_text_block, text_layout. rewrite Htexts.
  destruct (non_empty_indices (lines p)) as [|i rest] eqn:Hidx.
  { now rewrite (non_empty_indices_filter_nil _ Hidx). }
  destruct (filter _ (lines p)) as [|l ls] eqn:Hfilter.
  { rewrite (non_empty_indices_nil _ Hfilter) in Hidx. discriminate. }
  rewrite <- Hsizes.
  destruct (preview_sizes p) as [[|x xs]|e]; [|reflexivity|reflexivity].
  now elim (Hne [] Htexts ltac:(discriminate) eq_refl).
Qed.

(** With room for the plate and in the widget, and a border that did not
    raise, the repaint reaches its text block. *)
Lemma preview_layout_with_room (widget_width widget_height : Z)
  (p : SignParams) :
  0 < width p ->
  0 < height p ->
  (60 < widget_width)%Z ->
  (60 < widget_height)%Z ->
  (exists shape : option BorderShape, preview_border p = Ok shape) ->
  preview_layout widget_width widget_height p = preview_text_block p.
Proof.
  intros Hw Hh Hww Hwh [shape Hborder]. unfold preview_layout.
  assert (H1 : leb (width p) 0 = false) by (apply leb_false; lra).
  assert (H2 : leb (height p) 0 = false) by (apply leb_false; lra).
  rewrite H1, H2. cbn [orb]. cbv zeta.
  assert (H3 : (widget_width - 2 * 30 <=? 0)%Z = false)
    by (apply Z.leb_gt; lia).
  assert (H4 : (widget_height - 2 * 30 <=? 0)%Z = false)
    by (apply Z.leb_gt; lia).
  rewrite H3, H4. cbn [orb]. now rewrite Hborder.
Qed.

(** X21: whenever the repaint reaches its text block (a plate of
    positive size, a widget wider and higher than its two margins of 30,
    a border that did not raise) and the plain lines are what the
    generator reads (always so without styled lines, and for the
    parameters of the panel), the preview and the generator lay out the
    same non-empty lines, at the same font sizes and the same vertical
    centers, and the preview raises only what the generator raises: the
    text solids of [_create_text_solids] are built, on any kernel, from
    the layout [text_layout], and that is the layout the repaint draws. *)
Theorem preview_layout_agrees (widget_width widget_height : Z)
  (p : SignParams) :
  _get_line_texts p = lines p ->
  0 < width p ->
  0 < height p ->
  (60 < widget_width)%Z ->
  (60 < widget_height)%Z ->
  (exists shape : option BorderShape, preview_border p = Ok shape) ->
  preview_layout widget_width widget_height p = painted_of (text_layout p)
  /\ forall cadquery : CadQuery,
       _create_text_solids p
       = (layout <- text_layout p ;;
          Ok match layout with
             | Some (line_data, y_positions) =>
                 union_all
                   (text_solid_list p (non_empty_indices (lines p))
                      line_data y_positions)
             | None => None
             end).
Proof.
  intros Htexts Hw Hh Hww Hwh Hborder. split.
  - rewrite (preview_layout_with_room _ _ p Hw Hh Hww Hwh Hborder).
    now apply preview_text_block_of_sizes.
  - intros cadquery. unfold _create_text_solids, text_layout.
    rewrite Htexts.
    destruct (non_empty_indices (lines p)) as [|i rest]; [reflexivity|].
    destruct (chosen_sizes p (lines p)) as [chosen|e]; reflexivity.
Qed.

Lemma concave_offset_returns (hw hh r d : R) (n_arc : nat) :
  0 <= d ->
  exists path : QPainterPath,
    _build_offset_concave_path hw hh r d n_arc = Ok path.
Proof.
  intros Hd.
  destruct (Rle_dec hw d) as [Hw | Hw].
  { exists []. apply concave_offset_no_room. now left. }
  destruct (Rle_dec hh d) as [Hh | Hh].
  { exists []. apply concave_offset_no_room. now right. }
  destruct (concave_offset_not_empty hw hh r d n_arc Hd) as (path & Heq & _);
    [lra | lra | eauto].
Qed.

Lemma preview_border_returns (p : SignParams) :
  0 <= border_offset p ->
  0 <= border_width p ->
  exists shape : option BorderShape, preview_border p = Ok shape.
Proof.
  intros Hoff Hbw. unfold preview_border.
  destruct (leb (width p) 0 || leb (height p) 0); [eauto|].
  destruct (negb _ && gtb _ 0); [|eauto].
  assert (Hpaths : exists paths, _build_border_paths p = Ok paths).
  { unfold _build_border_paths. cbv zeta.
    destruct ((border_style p =? "concave")%string
              && gtb (corner_radius p) 0.1);
      [|eauto].
    destruct (concave_offset_returns (width p / 2) (height p / 2)
                (Rmin (Rmin (corner_radius p) (width p / 2 - 0.1))
                   (height p / 2 - 0.1))
                (border_offset p) 16 Hoff) as [outer Houter].
    destruct (concave_offset_returns (width p / 2) (height p / 2)
                (Rmin (Rmin (corner_radius p) (width p / 2 - 0.1))
                   (height p / 2 - 0.1))
                (border_offset p + border_width p) 16 ltac:(lra))
      as [inner Hinner].
    rewrite Houter, Hinner. cbn [bind]. eauto. }
  destruct Hpaths as [[outer inner] Hpaths]. rewrite Hpaths. cbn [bind].
  destruct (negb (isEmpty outer)); [|eauto].
  destruct inner as [inner|]; [destruct (negb (isEmpty inner))|]; eauto.
Qed.

(** The default configuration, which has no styled lines, in a widget of
    800 by 600. *)
Lemma preview_layout_agrees_default :
  preview_layout 800 600 default_params
  = painted_of (text_layout default_params)
  /\ _create_text_solids (cadquery := offsetless_kernel) default_params
     = (layout <- text_layout default_params ;;
        Ok match layout with
           | Some (line_data, y_positions) =>
               union_all
                 (text_solid_list (cadquery := offsetless_kernel)
                    default_params (non_empty_indices (lines default_params))
                    line_data y_positions)
           | None => None
           end).
Proof.
  assert (Hborder : exists shape : option BorderShape,
             preview_border default_params = Ok shape)
    by (apply preview_border_returns; cbn; lra).
  destruct (preview_layout_agrees 800 600 default_params eq_refl
              ltac:(cbn; lra) ltac:(cbn; lra) ltac:(lia) ltac:(lia) Hborder)
    as [Hlayout Hsolids].
  split; [exact Hlayout | exact (Hsolids offsetless_kernel)].
Defined.

(** X24: the agreement needs its hypothesis on the lines.  When the
    repaint reaches its text block (a plate of positive size, a widget
    wider and higher than its two margins of 30, a border that did not
    raise) with an empty list of styled lines, no explicit sizes and a
    line of text among the plain lines, it sizes no line and raises
    IndexError on the first line it lays out, while the generator finds
    no text and returns no text solids. *)
Theorem preview_fails_without_styled_lines (widget_width widget_height : Z)
  (p : SignParams) :
  styled_lines p = Some [] ->
  sizes p = None ->
  filter (fun l => truthy (strip l)) (lines p) <> [] ->
  0 < width p ->
  0 < height p ->
  (60 < widget_width)%Z ->
  (60 < widget_height)%Z ->
  (exists shape : option BorderShape, preview_border p = Ok shape) ->
  preview_layout widget_width widget_height p = Fails IndexError
  /\ forall cadquery : CadQuery, _create_text_solids p = Ok None.
Proof.
  intros Hstyled Hsizes Hlines Hw Hh Hww Hwh Hborder.
  assert (Htexts : _get_line_texts p = []).
  { unfold _get_line_texts. now rewrite Hstyled. }
  split.
  - rewrite (preview_layout_with_room _ _ p Hw Hh Hww Hwh Hborder).
    unfold preview_text_block.
    destruct (filter _ (lines p)); [now elim Hlines|].
    unfold preview_sizes, auto_font_sizes. rewrite Hsizes, Htexts.
    reflexivity.
  - intros cadquery. unfold _create_text_solids. rewrite Htexts.
    reflexivity.
Qed.

(** One line of text and an empty list of styled lines, in a widget of
    800 by 600. *)
Lemma preview_fails_without_styled_lines_one_line :
  let p :=
    mkSignParams ["A"%string] (Some []) None 180 120 3 0.6 "Arial"
      false false false "concave" 12 6 2 1.3 "namesign" in
  preview_layout 800 600 p = Fails IndexError
  /\ _create_text_solids (cadquery := offsetless_kernel) p = Ok None.
Proof.
  cbv zeta.
  assert (Hborder : exists shape : option BorderShape,
             preview_border
               (mkSignParams ["A"%string] (Some []) None 180 120 3 0.6
                  "Arial" false false false "concave" 12 6 2 1.3 "namesign")
             = Ok shape)
    by (apply preview_border_returns; cbn; lra).
  destruct (preview_fails_without_styled_lines 800 600
              (mkSignParams ["A"%string] (Some []) None 180 120 3 0.6 "Arial"
                 false false false "concave" 12 6 2 1.3 "namesign")
              eq_refl eq_refl ltac:(discriminate)
              ltac:(cbn; lra) ltac:(cbn; lra) ltac:(lia) ltac:(lia) Hborder)
    as [Hpreview Hsolids].
  split; [exact Hpreview | exact (Hsolids offsetless_kernel)].
Defined.

(* ================================================================== *)
(** * Further properties: what the panel can ask for *)
(* ================================================================== *)

Lemma preview_text_block_returns (p : SignParams) :
  _get_line_texts p = lines p ->
  0 <= line_spacing p ->
  exists layout : option (list (string * R) * list R),
    preview_text_block p = Drawn layout.
Proof.
  intros Htexts Hls. rewrite (preview_text_block_of_sizes p Htexts).
  unfold text_layout.
  destruct (non_empty_indices (_get_line_texts p)); [cbn; eauto|].
  pose proof (non_negative_spacing_divisor p Hls) as Hden.
  destruct (chosen_sizes_returns p Hden) as [chosen Hl]. rewrite Hl.
  cbn. eauto.
Qed.

Lemma preview_layout_returns (widget_width widget_height : Z)
  (p : SignParams) :
  _get_line_texts p = lines p ->
  0 <= border_offset p ->
  0 <= border_width p ->
  0 <= line_spacing p ->
  exists layout : option (list (string * R) * list R),
    preview_layout widget_width widget_height p = Drawn layout.
Proof.
  intros Htexts Hoff Hbw Hls. unfold preview_layout.
  destruct (leb (width p) 0 || leb (height p) 0); [eauto|]. cbv zeta.
  destruct (_ || _); [eauto|].
  destruct (preview_border_returns p Hoff Hbw) as [shape ->].
  now apply preview_text_block_returns.
Qed.

Lemma get_params_returns (st : PanelState) :
  (0 <= border_style_index st <= 2)%Z ->
  exists p : SignParams,
    get_params st = Some p
    /\ border_offset p = border_offset_spin st
    /\ border_width p = border_width_spin st
    /\ line_spacing p = line_spacing_spin st.
Proof.
  intros Hidx. unfold get_params.
  assert (Hstyle : exists style,
             get_border_style_str (border_style_index st) = Some style).
  { assert (Hcases : border_style_index st = 0%Z
                     \/ border_style_index st = 1%Z
                     \/ border_style_index st = 2%Z) by lia.
    destruct Hcases as [-> | [-> | ->]]; eexists; reflexivity. }
  destruct Hstyle as [style ->]. eexists. split; [reflexivity|].
  cbn. auto.
Qed.

(** X22: nothing the panel can ask for makes the font sizing or the
    repaint, up to its text layout, raise.  The border style box has
    three items and the spin boxes keep the border offset in 0..30, the
    border width in 0..10 and the line spacing in 0.8..3.0; with a valid
    style index, a non-negative offset and width and a non-negative line
    spacing, [get_params] returns a configuration for which
    [auto_font_sizes] returns the sizes, which are the sizes
    [_create_text_solids] selects, and for which the repaint, in a widget
    of any size, computes its border and reaches the end of its text
    layout. *)
Theorem panel_params_never_raise (st : PanelState)
  (widget_width widget_height : Z) :
  (0 <= border_style_index st <= 2)%Z ->
  0 <= border_offset_spin st ->
  0 <= border_width_spin st ->
  0 <= line_spacing_spin st ->
  exists p : SignParams,
    get_params st = Some p
    /\ (exists chosen : list R,
          auto_font_sizes p = Ok chosen
          /\ chosen_sizes p (_get_line_texts p) = Ok chosen)
    /\ (exists shape : option BorderShape, preview_border p = Ok shape)
    /\ (exists layout : option (list (string * R) * list R),
          preview_layout widget_width widget_height p = Drawn layout).
Proof.
  intros Hidx Hoff Hbw Hls.
  destruct (get_params_returns st Hidx) as (p & Hp & Eoff & Ebw & Els).
  exists p. split; [exact Hp|]. rewrite <- Els in Hls.
  rewrite <- Eoff in Hoff. rewrite <- Ebw in Hbw.
  split; [|split].
  - pose proof (non_negative_spacing_divisor p Hls) as Hden.
    destruct (chosen_sizes_returns p Hden) as [chosen Hchosen].
    exists chosen. split; [|exact Hchosen].
    destruct (get_params_inv st p Hp) as (_ & _ & _ & Hnone & _).
    unfold chosen_sizes in Hchosen. now rewrite Hnone in Hchosen.
  - now apply preview_border_returns.
  - apply preview_layout_returns; auto.
    exact (get_params_line_texts st p Hp).
Qed.

(** The panel as it starts, in a widget of 800 by 600. *)
Lemma panel_params_never_raise_initial :
  exists p : SignParams,
    get_params initial_panel = Some p
    /\ (exists chosen : list R,
          auto_font_sizes p = Ok chosen
          /\ chosen_sizes p (_get_line_texts p) = Ok chosen)
    /\ (exists shape : option BorderShape, preview_border p = Ok shape)
    /\ (exists layout : option (list (string * R) * list R),
          preview_layout 800 600 p = Drawn layout).
Proof.
  apply (panel_params_never_raise initial_panel 800 600); cbn; try lia; lra.
Defined.

(* ================================================================== *)
(** * Further properties: the border frame *)
(* ================================================================== *)

Section BorderFrameProofs.

Context {cadquery : CadQuery}.

Lemma offset_border_none (p : SignParams) :
  offset_border p = None
  <-> offset2D_raises
        (_create_outline_wire (width p) (height p) (corner_radius p)
           (border_style p)) (- border_offset p) = true
      \/ offset2D_raises
           (_create_outline_wire (width p) (height p) (corner_radius p)
              (border_style p)) (- (border_offset p + border_width p))
         = true.
Proof.
  unfold offset_border. cbv zeta.
  destruct (offset2D_raises _ (- border_offset p)); [tauto|].
  destruct (offset2D_raises _ (- (border_offset p + border_width p)));
    [tauto|].
  split; [discriminate | intros [H | H]; discriminate].
Qed.

Lemma fallback_border_none (p : SignParams) :
  fallback_border p = None
  <-> width p - 2 * border_offset p <= 0
      \/ height p - 2 * border_offset p <= 0.
Proof.
  unfold fallback_border. cbv zeta.
  destruct (leb (width p - 2 * border_offset p) 0) eqn:Hw.
  { apply leb_true in Hw. cbn [orb]. tauto. }
  destruct (leb (height p - 2 * border_offset p) 0) eqn:Hh.
  { apply leb_true in Hh. cbn [orb]. tauto. }
  apply leb_false in Hw. apply leb_false in Hh. cbn [orb].
  destruct (_ || _); (split; [discriminate | lra]).
Qed.

Lemma border_parts_in_slab (p : SignParams) (frame : Solid) (x y z : R) :
  offset_border p = Some frame \/ fallback_border p = Some frame ->
  covers frame (x, y, z) ->
  Rmin 0 (text_depth p) <= z <= Rmax 0 (text_depth p).
Proof.
  intros [Hframe | Hframe] Hcovers.
  - unfold offset_border in Hframe. cbv zeta in Hframe.
    destruct (offset2D_raises _ (- border_offset p)); [discriminate|].
    destruct (offset2D_raises _ (- (border_offset p + border_width p)));
      [discriminate|].
    inversion Hframe; subst. cbn [covers] in Hcovers. tauto.
  - unfold fallback_border in Hframe. cbv zeta in Hframe.
    destruct (_ || _); [discriminate|].
    destruct (_ || _); inversion Hframe; subst;
      unfold _create_outline_solid in Hcovers; cbn [covers] in Hcovers; tauto.
Qed.

(** X23: when [_create_border_frame] makes a frame, and where the frame
    is.  There is no frame exactly when the style is "none", or the border
    width is not positive, or [offset2D] raised for one of the two offsets
    and the fallback has no room for its outer shape (the offset takes the
    whole width or height); the sign of the offset alone never removes the
    frame.  A frame that is made lies between the workplane and the text
    depth. *)
Theorem border_frame_when (p : SignParams) :
  let outline :=
    _create_outline_wire (width p) (height p) (corner_radius p)
      (border_style p) in
  let off := border_offset p in
  let bw := border_width p in
  (_create_border_frame p = None
   <-> border_style p = "none"%string
       \/ bw <= 0
       \/ ((offset2D_raises outline (- off) = true
            \/ offset2D_raises outline (- (off + bw)) = true)
           /\ (width p - 2 * off <= 0 \/ height p - 2 * off <= 0)))
  /\ (forall (frame : Solid) (x y z : R),
        _create_border_frame p = Some frame ->
        covers frame (x, y, z) ->
        Rmin 0 (text_depth p) <= z <= Rmax 0 (text_depth p)).
Proof.
  cbv zeta.
  pose proof (offset_border_none p) as Hoffset.
  pose proof (fallback_border_none p) as Hfallback.
  pose proof (border_parts_in_slab p) as Hslab.
  unfold _create_border_frame.
  destruct (border_style p =? "none")%string eqn:Hstyle.
  { apply String.eqb_eq in Hstyle. cbn [orb].
    split; [tauto | discriminate]. }
  apply String.eqb_neq in Hstyle.
  destruct (leb (border_width p) 0) eqn:Hbw.
  { apply leb_true in Hbw. cbn [orb]. split; [tauto | discriminate]. }
  apply leb_false in Hbw. cbn [orb]. cbv zeta. rewrite Bool.andb_false_r.
  destruct (offset_border p) as [frame|] eqn:Hframe.
  - split.
    + split; [discriminate|]. intros [H | [H | [H _]]]; [tauto | lra |].
      apply Hoffset in H. discriminate.
    + intros frame' x y z Heq. inversion Heq; subst. apply Hslab. now left.
  - split.
    + rewrite Hfallback. split; [intros H; right; right; tauto|].
      intros [H | [H | [_ H]]]; [tauto | lra | exact H].
    + intros frame' x y z Heq. apply Hslab. now right.
Qed.

End BorderFrameProofs.
